(** * The unified visual manager of the portfolio site (js/visual-manager.js)

    A shallow embedding of the [UnifiedVisualManager] class: the canvas layer
    (particle set, pointer record, per-frame update, connection lines) and the
    mobile-menu handlers of the DOM layer.

    Number model.  A JavaScript Number is read as an exact real number: [+],
    [-], [*], [/], [Math.sqrt], [Math.cos], [Math.sin] are the operations of
    [R].  Rounding to binary64 and the special values (NaN, the infinities,
    the signed zero) are outside this model, so what is stated in it is what
    rounding keeps: counts, comparisons, assignments, and bounds that the
    rounded operations cannot cross.  Where rounding decides (a bound that
    is attained, a push that is absorbed, two distances that share an
    opacity, NaN), the code is embedded a second time on the binary64
    numbers of the kernel, in the modules [Binary64], [Binary64Wrap],
    [Binary64Particles] and [Binary64Connections].  The dimensions of the
    canvas are the [unsigned long] attributes of [HTMLCanvasElement], hence
    of type [N].

    Host functions.  [Math.random] is the stream of its successive results,
    [rnd : nat -> R], read at a call counter that the code threads; every
    result lies in [[0,1)].  [Math.atan2] is defined below from [atan] with
    the quadrant rules of ECMAScript.  The 2D context is the list of drawing
    commands it receives. *)

From Stdlib Require Import Reals Lra Lia ZArith NArith List String Bool.
From Stdlib Require Floats.
Import ListNotations.

Open Scope R_scope.

(** ** Host numbers *)

(** The Number an integer attribute of the DOM reads as. *)
Definition toNum (n : N) : R := IZR (Z.of_N n).

(** [Math.atan2(y, x)]: the angle of the vector [(x, y)], in [(-PI, PI]]; the
    angle of the null vector is [0]. *)
Definition atan2 (y x : R) : R :=
  if Rlt_dec 0 x then atan (y / x)
  else if Rlt_dec x 0 then
         if Rle_dec 0 y then atan (y / x) + PI else atan (y / x) - PI
  else if Rlt_dec 0 y then PI / 2
  else if Rlt_dec y 0 then - (PI / 2)
  else 0.

(** ** Data model *)

(** The object literal pushed by [createParticles]. *)
Record Particle : Type := mkParticle {
  x : R;
  y : R;
  size : R;
  speedX : R;
  speedY : R;
  hue : R;
  originalX : R;
  originalY : R
}.

(** [this.mouse]: [x] and [y] are [null] (here [None]) while the pointer is
    away. *)
Module Mouse.
Record t : Type := mk {
  x : option R;
  y : option R;
  radius : R
}.
End Mouse.

Record Canvas : Type := mkCanvas {
  width : N;
  height : N
}.

(** What a frame sends to the 2D context, as far as particles and connection
    lines go: a filled, glowing disc ([arc] then [fill], coloured by the hue)
    and a stroked segment ([moveTo], [lineTo], [stroke]) whose stroke style
    carries the opacity. *)
Inductive DrawCmd : Type :=
| FillArc (cx cy r h : R)
| StrokeLine (x1 y1 x2 y2 opacity : R).

(** The canvas-layer properties of the manager. *)
Record CanvasLayer : Type := mkCanvasLayer {
  canvas : Canvas;
  particles : list Particle;
  mouse : Mouse.t;
  gradientOffset : R
}.

(** The canvas-layer fields as the constructor sets them, with the canvas
    that [initCanvasLayer] creates before anything reads it: a new canvas
    element is 300 by 150. *)
Definition constructor : CanvasLayer :=
  mkCanvasLayer (mkCanvas 300 150) [] (Mouse.mk None None 150) 0.

Definition set_particles (ps : list Particle) (st : CanvasLayer) : CanvasLayer :=
  mkCanvasLayer (canvas st) ps (mouse st) (gradientOffset st).

Definition set_canvas (c : Canvas) (st : CanvasLayer) : CanvasLayer :=
  mkCanvasLayer c (particles st) (mouse st) (gradientOffset st).

Definition set_mouse (m : Mouse.t) (st : CanvasLayer) : CanvasLayer :=
  mkCanvasLayer (canvas st) (particles st) m (gradientOffset st).

(** ** createParticles *)

Section Random.

(** The results of the successive calls of [Math.random]. *)
Variable rnd : nat -> R.

(** One turn of the [for] loop: six samples, in the order of the source, and
    the particle pushed. *)
Definition newParticle (W H : R) (k : nat) : Particle :=
  let size := rnd k * 3 + 1 in
  let x := rnd (k + 1) * W in
  let y := rnd (k + 2) * H in
  let speedX := (rnd (k + 3) - 0.5) * 0.5 in
  let speedY := (rnd (k + 4) - 0.5) * 0.5 in
  let hue := rnd (k + 5) * 60 + 200 in
  mkParticle x y size speedX speedY hue x y.

(** The [for] loop with [todo] turns left, [k] calls of [Math.random] made
    so far and [ps] the array built so far. *)
Fixpoint pushParticles (W H : R) (todo k : nat) (ps : list Particle)
  : list Particle * nat :=
  match todo with
  | O => (ps, k)
  | S todo' => pushParticles W H todo' (k + 6) (ps ++ [newParticle W H k])
  end.

Definition numberOfParticles (c : Canvas) : Z :=
  Zfloor (toNum (width c) * toNum (height c) / 15000).

(** [createParticles]: the new state and the call counter of [Math.random].
    The loop [for (i = 0; i < n; i++)] makes [Z.to_nat n] turns. *)
Definition createParticles (k : nat) (st : CanvasLayer) : CanvasLayer * nat :=
  let n := numberOfParticles (canvas st) in
  let '(ps, k') :=
    pushParticles (toNum (width (canvas st))) (toNum (height (canvas st)))
                  (Z.to_nat n) k [] in
  (set_particles ps st, k').

(** ** resizeCanvas *)

(** [resizeCanvas], the window being [innerWidth] by [innerHeight]. *)
Definition resizeCanvas (innerWidth innerHeight : N) (k : nat) (st : CanvasLayer)
  : CanvasLayer * nat :=
  let st1 := set_canvas (mkCanvas innerWidth innerHeight) st in
  if (0 <? List.length (particles st1))%nat then createParticles k st1
  else (st1, k).

(** [initCanvasLayer]: size the canvas, then create the particles. *)
Definition initCanvasLayer (innerWidth innerHeight : N) (k : nat) (st : CanvasLayer)
  : CanvasLayer * nat :=
  let '(st1, k1) := resizeCanvas innerWidth innerHeight k st in
  createParticles k1 st1.

End Random.

(** ** Pointer tracking *)

Definition handleMouseMove (clientX clientY : R) (st : CanvasLayer) : CanvasLayer :=
  set_mouse (Mouse.mk (Some clientX) (Some clientY) (Mouse.radius (mouse st))) st.

Definition handleMouseOut (st : CanvasLayer) : CanvasLayer :=
  set_mouse (Mouse.mk None None (Mouse.radius (mouse st))) st.

(** ** drawParticles *)

Definition set_x (v : R) (p : Particle) : Particle :=
  mkParticle v (y p) (size p) (speedX p) (speedY p) (hue p)
             (originalX p) (originalY p).

Definition set_y (v : R) (p : Particle) : Particle :=
  mkParticle (x p) v (size p) (speedX p) (speedY p) (hue p)
             (originalX p) (originalY p).

(** The constant [force] of the mouse interaction, from the radius of the
    pointer and the distance of the particle. *)
Definition force (radius distance : R) : R := (radius - distance) / radius.

(** "Mouse interaction": the push away from the pointer.  Both assignments
    read the [angle] and [force] computed before the first. *)
Definition mouseInteraction (m : Mouse.t) (p : Particle) : Particle :=
  match Mouse.x m, Mouse.y m with
  | Some mx, Some my =>
      let dx := mx - x p in
      let dy := my - y p in
      let distance := sqrt (dx * dx + dy * dy) in
      if Rlt_dec distance (Mouse.radius m) then
        let f := force (Mouse.radius m) distance in
        let angle := atan2 dy dx in
        set_y (y p - sin angle * f * 3) (set_x (x p - cos angle * f * 3) p)
      else p
  | _, _ => p
  end.

(** "Return to original position slowly". *)
Definition returnToOriginal (p : Particle) : Particle :=
  set_y (y p + (originalY p - y p) * 0.02)
        (set_x (x p + (originalX p - x p) * 0.02) p).

(** "Move particle". *)
Definition moveParticle (p : Particle) : Particle :=
  set_y (y p + speedY p) (set_x (x p + speedX p) p).

(** The position before the wrap: the three movement steps. *)
Definition moved (m : Mouse.t) (p : Particle) : Particle :=
  moveParticle (returnToOriginal (mouseInteraction m p)).

(** "Wrap around edges": four [if] statements in sequence, each reading the
    coordinate the previous one may have written. *)
Definition wrapAround (c : Canvas) (p : Particle) : Particle :=
  let p1 := if Rgt_dec (x p) (toNum (width c)) then set_x 0 p else p in
  let p2 := if Rlt_dec (x p1) 0 then set_x (toNum (width c)) p1 else p1 in
  let p3 := if Rgt_dec (y p2) (toNum (height c)) then set_y 0 p2 else p2 in
  if Rlt_dec (y p3) 0 then set_y (toNum (height c)) p3 else p3.

(** The update of one particle in the callback of [forEach]. *)
Definition updateParticle (m : Mouse.t) (c : Canvas) (p : Particle) : Particle :=
  wrapAround c (moved m p).

(** "Draw particle", on the updated particle. *)
Definition drawParticle (p : Particle) : DrawCmd :=
  FillArc (x p) (y p) (size p) (hue p).

Definition drawParticles (st : CanvasLayer) : CanvasLayer * list DrawCmd :=
  let ps := map (updateParticle (mouse st) (canvas st)) (particles st) in
  (set_particles ps st, map drawParticle ps).

(** ** drawConnections *)

Definition maxDistance : R := 120.

(** The constant [opacity] of a connection, from the distance of the pair. *)
Definition opacity (distance : R) : R := (1 - distance / maxDistance) * 0.3.

(** The body of the inner loop, for the particles at [i] and [j]. *)
Definition connection (p q : Particle) : list DrawCmd :=
  let dx := x p - x q in
  let dy := y p - y q in
  let distance := sqrt (dx * dx + dy * dy) in
  if Rlt_dec distance maxDistance then
    [StrokeLine (x p) (y p) (x q) (y q) (opacity distance)]
  else [].

(** The two nested loops: the particle at [i] against every later one, then
    the same from [i + 1]. *)
Fixpoint connections (ps : list Particle) : list DrawCmd :=
  match ps with
  | [] => []
  | p :: rest => flat_map (connection p) rest ++ connections rest
  end.

Definition drawConnections (st : CanvasLayer) : list DrawCmd :=
  connections (particles st).

(** ** renderCanvas *)

(** One frame.  The gradient and the floating shapes paint from the clock and
    from [gradientOffset] only; of [drawGradientBackground] the embedding
    keeps the advance of the offset.  Connections are drawn between the
    positions of the previous frame, before [drawParticles] moves them. *)
Definition renderCanvas (st : CanvasLayer) : CanvasLayer * list DrawCmd :=
  let st1 := mkCanvasLayer (canvas st) (particles st) (mouse st)
                           (gradientOffset st + 0.0005) in
  let lines := drawConnections st1 in
  let '(st2, discs) := drawParticles st1 in
  (st2, lines ++ discs).

(** ** DOM layer: the mobile menu *)

Module Dom.

Open Scope string_scope.

(** The inline style of a [span] of the hamburger icon. *)
Record Style : Type := mkStyle {
  transform : string;
  opacity : string
}.

(** [hamburger] is the list of the styles of its [span] descendants, in
    document order; [navMenu] is its [classList].  Both are [null] (here
    [None]) when the page has no such element. *)
Record Layer : Type := mkLayer {
  hamburger : option (list Style);
  navMenu : option (list string)
}.

(** A [DOMTokenList] is a set of tokens kept in order. *)
Definition contains (tok : string) (l : list string) : bool :=
  existsb (String.eqb tok) l.

Definition remove (tok : string) (l : list string) : list string :=
  filter (fun t => negb (String.eqb tok t)) l.

Definition toggle (tok : string) (l : list string) : list string :=
  if contains tok l then remove tok l else l ++ [tok].

(** A handler runs on the layer and either completes or throws a
    [TypeError]; what it wrote before throwing stays written. *)
Definition M (A : Type) : Type := Layer -> option A * Layer.

Definition bind {A B : Type} (m : M A) (f : A -> M B) : M B :=
  fun st =>
    match m st with
    | (Some a, st') => f a st'
    | (None, st') => (None, st')
    end.

Notation "v <- m ;; k" := (bind m (fun v => k))
  (at level 61, m at next level, right associativity).
Notation "m ;; k" := (bind m (fun _ => k))
  (at level 61, right associativity).

(** [this.navMenu.classList.<op>('active')] for an operation [op] on the
    token list. *)
Definition onClassList (op : list string -> list string) : M unit :=
  fun st =>
    match navMenu st with
    | Some cl => (Some tt, mkLayer (hamburger st) (Some (op cl)))
    | None => (None, st)
    end.

(** [this.navMenu.classList.contains('active')]. *)
Definition isActive : M bool :=
  fun st =>
    match navMenu st with
    | Some cl => (Some (contains "active" cl), st)
    | None => (None, st)
    end.

(** [this.hamburger.querySelectorAll('span')]: how many spans there are. *)
Definition querySpans : M nat :=
  fun st =>
    match hamburger st with
    | Some spans => (Some (List.length spans), st)
    | None => (None, st)
    end.

Fixpoint update {A : Type} (i : nat) (f : A -> A) (l : list A) : list A :=
  match l, i with
  | [], _ => []
  | a :: l', O => f a :: l'
  | a :: l', S i' => a :: update i' f l'
  end.

(** [spans[i].style.<property> = value]: throws when there is no span at
    [i]. *)
Definition setStyle (n i : nat) (f : Style -> Style) : M unit :=
  fun st =>
    match hamburger st with
    | Some spans =>
        if (i <? n)%nat
        then (Some tt, mkLayer (Some (update i f spans)) (navMenu st))
        else (None, st)
    | None => (None, st)
    end.

Definition setTransform (v : string) (s : Style) : Style :=
  mkStyle v (opacity s).

Definition setOpacity (v : string) (s : Style) : Style :=
  mkStyle (transform s) v.

Definition toggleMobileMenu : M unit :=
  onClassList (toggle "active") ;;
  n <- querySpans ;;
  active <- isActive ;;
  if active : bool then
    setStyle n 0 (setTransform "rotate(45deg) translate(5px, 5px)") ;;
    setStyle n 1 (setOpacity "0") ;;
    setStyle n 2 (setTransform "rotate(-45deg) translate(7px, -6px)")
  else
    setStyle n 0 (setTransform "none") ;;
    setStyle n 1 (setOpacity "1") ;;
    setStyle n 2 (setTransform "none").

Definition closeMobileMenu : M unit :=
  onClassList (remove "active") ;;
  n <- querySpans ;;
  setStyle n 0 (setTransform "none") ;;
  setStyle n 1 (setOpacity "1") ;;
  setStyle n 2 (setTransform "none").

(** Whether the menu carries the class [active]; a page without the menu
    has no such class. *)
Definition menuActive (st : Layer) : bool :=
  match navMenu st with
  | Some cl => contains "active" cl
  | None => false
  end.

End Dom.

(** ** The mouse interaction on binary64

    Whether a step yields NaN is a question on the doubles themselves: here
    the mouse interaction is embedded a second time, on the binary64 numbers
    of the kernel, with the operations of IEEE 754 ([-], [*], [/],
    [Math.sqrt] and [<] are [sub], [mul], [div], [sqrt] and [ltb]).
    [Math.atan2], [Math.cos] and [Math.sin] are functions of the host, known
    by what ECMAScript says of them. *)
Module Binary64.

Import PrimFloat.
Local Open Scope float_scope.

(** The fields of a particle that the mouse interaction reads and writes. *)
Record Position : Type := mkPosition {
  x : float;
  y : float
}.

(** [this.mouse]. *)
Record Mouse : Type := mkMouse {
  mouseX : option float;
  mouseY : option float;
  radius : float
}.

Section Host.

Variable Math_atan2 : float -> float -> float.
Variable Math_cos : float -> float.
Variable Math_sin : float -> float.

Definition mouseInteraction (m : Mouse) (p : Position) : Position :=
  match mouseX m, mouseY m with
  | Some mx, Some my =>
      let dx := mx - x p in
      let dy := my - y p in
      let distance := sqrt (dx * dx + dy * dy) in
      if distance <? radius m then
        let force := (radius m - distance) / radius m in
        let angle := Math_atan2 dy dx in
        mkPosition (x p - Math_cos angle * force * 3)
                   (y p - Math_sin angle * force * 3)
      else p
  | _, _ => p
  end.

End Host.

(** A number of the specification that is neither NaN nor an infinity. *)
Definition isFiniteSF (v : SpecFloat.spec_float) : bool :=
  match v with
  | SpecFloat.S754_zero _ | SpecFloat.S754_finite _ _ _ => true
  | _ => false
  end.

(** The number 3 in the specification: 3 * 2^51 * 2^-51. *)
Definition three_SF : SpecFloat.spec_float :=
  SpecFloat.S754_finite false 6755399441055744 (-51).

End Binary64.

(** ** The life of the canvas layer *)

(** What the host delivers once [initCanvasLayer] has registered the
    listeners and [render] has requested its first frame. *)
Inductive Event : Type :=
| AnimationFrame
| MouseMove (clientX clientY : R)
| MouseOut
| Resize (innerWidth innerHeight : N).

(** One event on the state and the call counter of [Math.random]. *)
Definition handle (rnd : nat -> R) (ev : Event) (s : CanvasLayer * nat)
  : CanvasLayer * nat :=
  match ev with
  | AnimationFrame => (fst (renderCanvas (fst s)), snd s)
  | MouseMove cx cy => (handleMouseMove cx cy (fst s), snd s)
  | MouseOut => (handleMouseOut (fst s), snd s)
  | Resize w h => resizeCanvas rnd w h (snd s) (fst s)
  end.

Definition run (rnd : nat -> R) (evs : list Event) (s : CanvasLayer * nat)
  : CanvasLayer * nat :=
  fold_left (fun s ev => handle rnd ev s) evs s.

Definition isResize (ev : Event) : bool :=
  match ev with
  | Resize _ _ => true
  | _ => false
  end.

(** ** Vocabulary of the properties *)

(** Everything of a particle but its position. *)
Definition sameAttributes (p p' : Particle) : Prop :=
  size p' = size p /\ speedX p' = speedX p /\ speedY p' = speedY p /\
  hue p' = hue p /\ originalX p' = originalX p /\ originalY p' = originalY p.

Definition inBounds (c : Canvas) (p : Particle) : Prop :=
  0 <= x p <= toNum (width c) /\ 0 <= y p <= toNum (height c).

(** The distance the source computes from the differences of coordinates. *)
Definition distance (dx dy : R) : R := sqrt (dx * dx + dy * dy).

(** ** Vocabulary of the life of the canvas layer *)

(** A particle within the canvas whose origin is a point of the canvas. *)
Definition settled (c : Canvas) (p : Particle) : Prop :=
  inBounds c p /\
  0 <= originalX p < toNum (width c) /\
  0 <= originalY p < toNum (height c).

(** The pointer record as the handlers leave it: the radius of the
    constructor, and coordinates that are both [null] or both numbers. *)
Definition pointerWellFormed (m : Mouse.t) : Prop :=
  Mouse.radius m = 150 /\
  ((Mouse.x m = None /\ Mouse.y m = None) \/
   (exists a b, Mouse.x m = Some a /\ Mouse.y m = Some b)).

(** [n] frames in a row. *)
Definition frames (n : nat) : list Event := repeat AnimationFrame n.

(** ** drawGradientBackground *)




(** ** drawFloatingShapes *)

(** A stroked outline: a hexagon, given by the translation, the rotation and
    the six vertices of its path in the translated and rotated frame, or a
    circle; each with the opacity of its stroke style. *)
Inductive Shape : Type :=
| Hexagon (cx cy rotation : R) (vertices : list (R * R)) (alpha : R)
| Circle (cx cy radius alpha : R).

(** The inner loop on [j]: [moveTo] the first vertex, [lineTo] the others;
    [closePath] then joins the last to the first. *)
Definition hexagonPath (size : R) : list (R * R) :=
  map (fun j => let angle := PI / 3 * INR j in
                (cos angle * size, sin angle * size))
      (seq 0 6).

Definition hexagon (c : Canvas) (time : R) (i : nat) : Shape :=
  let x := toNum (width c) * 0.2 + sin (time * 0.5 + INR i * 2) * 100 in
  let y := toNum (height c) * 0.3 + cos (time * 0.3 + INR i * 2) * 100 + INR i * 200 in
  let size := 60 + sin (time + INR i) * 20 in
  let rotation := time * 0.5 + INR i in
  let opacity := 0.1 + sin (time * 2 + INR i) * 0.05 in
  Hexagon x y rotation (hexagonPath size) opacity.

Definition circle (c : Canvas) (time : R) (i : nat) : Shape :=
  let x := toNum (width c) * 0.7 + cos (time * 0.4 + INR i * 3) * 150 in
  let y := toNum (height c) * 0.5 + sin (time * 0.6 + INR i * 3) * 150 in
  let size := 40 + sin (time * 1.5 + INR i) * 15 in
  let opacity := 0.08 + cos (time * 2 + INR i) * 0.04 in
  Circle x y size opacity.

(** [drawFloatingShapes], [now] being what [Date.now()] returns. *)
Definition drawFloatingShapes (now : R) (c : Canvas) : list Shape :=
  let time := now * 0.001 in
  map (hexagon c time) (seq 0 3) ++ map (circle c time) (seq 0 2).


(** ** initDOMLayer: the clicks on the menu *)

Module Clicks.

Import Dom.

(** The clicks that [initDOMLayer] listens to: on the hamburger icon and on
    a link of the menu. *)
Inductive Click : Type :=
| OnHamburger
| OnNavLink.

(** [if (this.hamburger && this.navMenu)]: whether [initDOMLayer] registers
    the two click listeners. *)
Definition registered (st : Layer) : bool :=
  match hamburger st, navMenu st with
  | Some _, Some _ => true
  | _, _ => false
  end.

(** A click on a page set up by [initDOMLayer]: the listener runs when it
    was registered; a click with no listener does nothing. *)
Definition click (c : Click) : M unit :=
  fun st =>
    if registered st then
      match c with
      | OnHamburger => toggleMobileMenu st
      | OnNavLink => closeMobileMenu st
      end
    else (Some tt, st).

(** Clicks in a row: the layer after the last one, and whether all the
    listeners completed. *)
Fixpoint clicks (cs : list Click) (st : Layer) : bool * Layer :=
  match cs with
  | [] => (true, st)
  | c :: cs' =>
      let '(r, st') := click c st in
      let '(ok, st'') := clicks cs' st' in
      (match r with Some _ => ok | None => false end, st'')
  end.

(** The menu as a switch: the icon flips it, a link turns it off. *)
Definition switch (active : bool) (c : Click) : bool :=
  match c with
  | OnHamburger => negb active
  | OnNavLink => false
  end.

(** The styles of the three bars of the icon when the menu is open (a
    cross) and when it is closed. *)
Definition iconOf (active : bool) (s0 s1 s2 : Style) : list Style :=
  if active then
    [setTransform "rotate(45deg) translate(5px, 5px)" s0;
     setOpacity "0" s1;
     setTransform "rotate(-45deg) translate(7px, -6px)" s2]
  else
    [setTransform "none" s0; setOpacity "1" s1; setTransform "none" s2].

End Clicks.

(** ** validateEmail and the address of a mail link *)

Module Email.

(** A JavaScript string: the list of its UTF-16 code units. *)
Definition jsstring : Type := list N.

(** The code units of a literal of the source, all ASCII. *)
Definition units (s : string) : jsstring :=
  map Ascii.N_of_ascii (list_ascii_of_string s).

(** A regular expression without captures or assertions, as a pattern
    without the [u] flag reads it: one code unit at a time. *)
Inductive Regex : Type :=
| Fail
| Eps
| Class (p : N -> bool)
| Seq (r1 r2 : Regex)
| Alt (r1 r2 : Regex)
| Star (r : Regex).

(** [r+]. *)
Definition Plus (r : Regex) : Regex := Seq r (Star r).

(** The strings a regular expression matches in full. *)
Inductive Matches : Regex -> jsstring -> Prop :=
| MEps : Matches Eps []
| MClass (p : N -> bool) (c : N) : p c = true -> Matches (Class p) [c]
| MSeq (r1 r2 : Regex) (s1 s2 : jsstring) :
    Matches r1 s1 -> Matches r2 s2 -> Matches (Seq r1 r2) (s1 ++ s2)
| MAltL (r1 r2 : Regex) (s : jsstring) : Matches r1 s -> Matches (Alt r1 r2) s
| MAltR (r1 r2 : Regex) (s : jsstring) : Matches r2 s -> Matches (Alt r1 r2) s
| MStarNil (r : Regex) : Matches (Star r) []
| MStarCons (r : Regex) (s1 s2 : jsstring) :
    Matches r s1 -> Matches (Star r) s2 -> Matches (Star r) (s1 ++ s2).

Fixpoint nullable (r : Regex) : bool :=
  match r with
  | Fail => false
  | Eps => true
  | Class _ => false
  | Seq r1 r2 => nullable r1 && nullable r2
  | Alt r1 r2 => nullable r1 || nullable r2
  | Star _ => true
  end.

(** What is left of a regular expression after the code unit [c]. *)
Fixpoint deriv (c : N) (r : Regex) : Regex :=
  match r with
  | Fail => Fail
  | Eps => Fail
  | Class p => if p c then Eps else Fail
  | Seq r1 r2 =>
      if nullable r1 then Alt (Seq (deriv c r1) r2) (deriv c r2)
      else Seq (deriv c r1) r2
  | Alt r1 r2 => Alt (deriv c r1) (deriv c r2)
  | Star r1 => Seq (deriv c r1) (Star r1)
  end.

(** [/^r$/.test(s)]: the anchors make [test] a match of the whole string. *)
Definition test (r : Regex) (s : jsstring) : bool :=
  nullable (fold_left (fun r c => deriv c r) s r).

(** The class [\s]: the white space and the line terminators of
    ECMAScript. *)
Definition isWhiteSpace (c : N) : bool :=
  ((9 <=? c) && (c <=? 13) || (c =? 32) || (c =? 160) || (c =? 5760) ||
   (8192 <=? c) && (c <=? 8202) || (c =? 8232) || (c =? 8233) ||
   (c =? 8239) || (c =? 8287) || (c =? 12288) || (c =? 65279))%N.

Definition atSign : N := 64.
Definition dot : N := 46.

(** The class [[^\s@]]. *)
Definition plain (c : N) : bool := negb (isWhiteSpace c) && negb (c =? atSign)%N.

(** The pattern [^[^\s@]+@[^\s@]+\.[^\s@]+$] between its anchors. *)
Definition re : Regex :=
  Seq (Plus (Class plain))
      (Seq (Class (N.eqb atSign))
           (Seq (Plus (Class plain))
                (Seq (Class (N.eqb dot)) (Plus (Class plain))))).

Definition validateEmail (email : jsstring) : bool := test re email.

(** What is left of [s] after the prefix [pat], if [s] starts with it. *)
Fixpoint stripPrefix (pat s : jsstring) : option jsstring :=
  match pat, s with
  | [], _ => Some s
  | _ :: _, [] => None
  | a :: pat', b :: s' => if (a =? b)%N then stripPrefix pat' s' else None
  end.

(** [s.replace(pat, rep)] for a string pattern and a replacement without
    [$]: the first occurrence of [pat] is replaced, a string without
    [pat] is returned as it is. *)
Fixpoint replace (pat rep s : jsstring) : jsstring :=
  match stripPrefix pat s with
  | Some rest => rep ++ rest
  | None =>
      match s with
      | [] => []
      | c :: s' => c :: replace pat rep s'
      end
  end.

(** The text that the [contextmenu] listener of a mail link passes to
    [copyToClipboard], from the [href] of the link. *)
Definition emailOf (href : jsstring) : jsstring :=
  replace (units "mailto:") [] href.

End Email.

(** ** updateNavbarEffect *)

Module Navbar.

Open Scope string_scope.

(** [navbar] is the value last assigned to the [boxShadow] of the inline
    style of the element, [None] when the page has no such element. *)
Record Layer : Type := mkLayer {
  navbar : option string;
  lastScroll : R
}.

Definition scrolledShadow : string := "0 4px 12px rgba(0, 0, 0, 0.1)".
Definition restingShadow : string := "0 4px 6px -1px rgba(0, 0, 0, 0.1)".

(** [updateNavbarEffect], [pageYOffset] being the scroll position: without
    the element the write of the shadow throws, before [lastScroll] is
    written. *)
Definition updateNavbarEffect (pageYOffset : R) (st : Layer) : option unit * Layer :=
  let currentScroll := pageYOffset in
  match navbar st with
  | Some _ =>
      let shadow := if Rgt_dec currentScroll 50 then scrolledShadow else restingShadow in
      (Some tt, mkLayer (Some shadow) currentScroll)
  | None => (None, st)
  end.

(** The scroll events of a session, in order. *)
Definition scrolls (ys : list R) (st : Layer) : Layer :=
  fold_left (fun st y => snd (updateNavbarEffect y st)) ys st.

End Navbar.

(** ** render and destroy: the frame loop and the listeners of the window *)

Module Lifecycle.

Open Scope string_scope.

(** The window as the manager uses it.  A listener is an event type and the
    identity of a function object; an arrow function handed to the window
    is evaluated to a function object of a new identity, [allocated]
    counting the identities given so far.  [requests] are the frame requests not yet run or
    cancelled, [lastRequest] the handle last returned by
    [requestAnimationFrame] (handles are never 0). *)
Record Window : Type := mkWindow {
  listeners : list (string * nat);
  allocated : nat;
  requests : list nat;
  lastRequest : nat
}.

(** The manager: its canvas layer, [animationId] ([None] for [null]) and
    whether the canvas is in the document. *)
Record Manager : Type := mkManager {
  layer : CanvasLayer;
  animationId : option nat;
  canvasInDocument : bool
}.

(** [window.addEventListener(type, () => ...)]: the arrow function is
    evaluated, then registered. *)
Definition addEventListener (type : string) (w : Window) : Window :=
  mkWindow (listeners w ++ [(type, allocated w)]) (S (allocated w))
           (requests w) (lastRequest w).

Definition sameListener (a b : string * nat) : bool :=
  String.eqb (fst a) (fst b) && Nat.eqb (snd a) (snd b).

Fixpoint removeListener (l : string * nat) (ls : list (string * nat))
  : list (string * nat) :=
  match ls with
  | [] => []
  | l' :: ls' => if sameListener l l' then ls' else l' :: removeListener l ls'
  end.

(** [window.removeEventListener(type, () => ...)]: the arrow function is
    evaluated, then the listener of that type and that function object is
    removed, if there is one. *)
Definition removeEventListener (type : string) (w : Window) : Window :=
  mkWindow (removeListener (type, allocated w) (listeners w)) (S (allocated w))
           (requests w) (lastRequest w).

(** [requestAnimationFrame(() => this.render())]: the new handle and the
    window. *)
Definition requestAnimationFrame (w : Window) : nat * Window :=
  (S (lastRequest w),
   mkWindow (listeners w) (S (allocated w))
            (requests w ++ [S (lastRequest w)]) (S (lastRequest w))).

Definition cancelAnimationFrame (id : nat) (w : Window) : Window :=
  mkWindow (listeners w) (allocated w)
           (filter (fun r => negb (Nat.eqb r id)) (requests w)) (lastRequest w).

(** [render]: paint a frame, then request the next one. *)
Definition render (s : Manager * Window) : Manager * Window :=
  let '(m, w) := s in
  let '(id, w') := requestAnimationFrame w in
  (mkManager (fst (renderCanvas (layer m))) (Some id) (canvasInDocument m), w').

(** The listeners on the window that [initCanvasLayer], [initDOMLayer] and
    [initLoadAnimations] register, in the order of [initializeLayers]. *)
Definition registerListeners (w : Window) : Window :=
  addEventListener "load"
    (addEventListener "scroll"
       (addEventListener "mouseout"
          (addEventListener "mousemove" (addEventListener "resize" w)))).

(** [initializeLayers] as far as the canvas, the window and the loop go:
    the canvas is inserted, sized and filled with particles, the listeners
    are registered, [render] runs once. *)
Definition initializeLayers (rnd : nat -> R) (innerWidth innerHeight : N) (k : nat)
           (s : Manager * Window) : Manager * Window :=
  let '(m, w) := s in
  render (mkManager (fst (initCanvasLayer rnd innerWidth innerHeight k (layer m)))
                    (animationId m) true,
          registerListeners w).

(** A manager as the constructor leaves it, before [init]. *)
Definition constructed : Manager := mkManager constructor None false.

(** The display refreshes: every pending request is taken off and its
    callback, [render], runs. *)
Definition refresh (s : Manager * Window) : Manager * Window :=
  let '(m, w) := s in
  fold_left (fun s _ => render s) (requests w)
            (m, mkWindow (listeners w) (allocated w) [] (lastRequest w)).

(** [destroy], as far as the window and the canvas go: [if
    (this.animationId)] is false for [null] and for 0. *)
Definition destroy (s : Manager * Window) : Manager * Window :=
  let '(m, w) := s in
  let w1 :=
    match animationId m with
    | Some id => if Nat.eqb id 0 then w else cancelAnimationFrame id w
    | None => w
    end in
  let w2 :=
    removeEventListener "scroll"
      (removeEventListener "mouseout"
         (removeEventListener "mousemove" (removeEventListener "resize" w1))) in
  (mkManager (layer m) (animationId m) false, w2).

(** A window in which the functions registered are functions that exist. *)
Definition wellFormed (w : Window) : Prop :=
  Forall (fun l => (snd l < allocated w)%nat) (listeners w).

(** The state of the loop between two refreshes: one request is pending,
    the one [animationId] holds, and it is the last one issued. *)
Definition looping (s : Manager * Window) : Prop :=
  requests (snd s) = [lastRequest (snd s)] /\
  animationId (fst s) = Some (lastRequest (snd s)) /\
  lastRequest (snd s) <> 0%nat.

End Lifecycle.

(** ** initScrollAnimations: the two observers *)

Module Observers.

Open Scope string_scope.

(** An entry of an [IntersectionObserver]: the index of its target among
    the observed elements, and whether the target intersects. *)
Record Entry : Type := mkEntry {
  target : nat;
  isIntersecting : bool
}.

(** [classList.add(tok)]. *)
Definition add (tok : string) (l : list string) : list string :=
  if Dom.contains tok l then l else (l ++ [tok])%list.

(** The callback of the first observer, on the class lists of the elements
    it observes. *)
Definition fadeIn (entries : list Entry) (els : list (list string))
  : list (list string) :=
  fold_left
    (fun els entry =>
       if isIntersecting entry then Dom.update (target entry) (add "fade-in") els
       else els)
    entries els.

(** An image with a [data-src] attribute: its [src], its [dataset.src], its
    class list, and whether the second observer still observes it. *)
Record Img : Type := mkImg {
  src : option string;
  dataSrc : string;
  classes : list string;
  observed : bool
}.

(** The body of the callback of the second observer for an intersecting
    entry: [img.src = img.dataset.src], the class [loaded], [unobserve]. *)
Definition load (img : Img) : Img :=
  mkImg (Some (dataSrc img)) (dataSrc img) (add "loaded" (classes img)) false.

Definition lazyLoad (entries : list Entry) (imgs : list Img) : list Img :=
  fold_left
    (fun imgs entry =>
       if isIntersecting entry then Dom.update (target entry) load imgs else imgs)
    entries imgs.

(** Whether some entry reports the element [i] as intersecting. *)
Definition reported (i : nat) (entries : list Entry) : bool :=
  existsb (fun e => isIntersecting e && Nat.eqb (target e) i) entries.

End Observers.

(** ** The wrap on binary64 *)

Module Binary64Wrap.

Import PrimFloat.
Local Open Scope float_scope.

(** The two [if] statements of the wrap on one coordinate [v], [bound]
    being the width or the height of the canvas: [v > bound] is
    [bound < v]. *)
Definition wrap (bound v : float) : float :=
  let v1 := if bound <? v then 0 else v in
  if v1 <? 0 then bound else v1.

Definition isNaNSF (v : SpecFloat.spec_float) : bool :=
  match v with SpecFloat.S754_nan => true | _ => false end.

End Binary64Wrap.

(** ** createParticles on binary64 *)

Module Binary64Particles.

Import PrimFloat.
Local Open Scope float_scope.

(** The object literal pushed by [createParticles], its numbers as doubles. *)
Record Particle : Type := mkParticle {
  x : float;
  y : float;
  size : float;
  speedX : float;
  speedY : float;
  hue : float;
  originalX : float;
  originalY : float
}.

(** One turn of the [for] loop, [rnd] being the successive results of
    [Math.random] and [k] the calls made so far; [width] and [height] are
    the dimensions of the canvas as Numbers. *)
Definition newParticle (rnd : nat -> float) (width height : float) (k : nat)
  : Particle :=
  let size := rnd k * 3 + 1 in
  let x := rnd (k + 1)%nat * width in
  let y := rnd (k + 2)%nat * height in
  let speedX := (rnd (k + 3)%nat - 0.5) * 0.5 in
  let speedY := (rnd (k + 4)%nat - 0.5) * 0.5 in
  let hue := rnd (k + 5)%nat * 60 + 200 in
  mkParticle x y size speedX speedY hue x y.

End Binary64Particles.

(** ** drawConnections on binary64 *)

Module Binary64Connections.

Import PrimFloat.
Local Open Scope float_scope.

Definition maxDistance : float := 120.

(** The constant [opacity]; the literal 0.3 is the double
    0x1.3333333333333p-2. *)
Definition opacity (distance : float) : float :=
  (1 - distance / maxDistance) * 0x1.3333333333333p-2.

(** The body of the inner loop for the particles at [p] and [q]: the
    opacity of the line it strokes, [None] when it strokes none. *)
Definition connection (p q : Binary64.Position) : option float :=
  let dx := Binary64.x p - Binary64.x q in
  let dy := Binary64.y p - Binary64.y q in
  let distance := sqrt (dx * dx + dy * dy) in
  if distance <? maxDistance then Some (opacity distance) else None.

End Binary64Connections.

(** * Properties *)

(** ** Numbers *)

Lemma toNum_nonneg (n : N) : 0 <= toNum n.
Proof. unfold toNum. apply IZR_le. lia. Qed.

Lemma toNum_pos (n : N) : (0 < n)%N -> 0 < toNum n.
Proof. intro Hn. unfold toNum. apply IZR_lt. lia. Qed.

(** [Math.floor] of the quotient of two integers is their Euclidean
    quotient. *)
Lemma Zfloor_div (a b : Z) : (0 < b)%Z -> Zfloor (IZR a / IZR b) = (a / b)%Z.
Proof.
  intro Hb.
  assert (HbR : 0 < IZR b) by (apply IZR_lt; exact Hb).
  apply Zfloor_eq.
  pose proof (Z.div_mod a b ltac:(lia)) as Hdm.
  pose proof (Z.mod_pos_bound a b Hb) as [Hlo Hhi].
  assert (Ha : IZR a = IZR b * IZR (a / b) + IZR (a mod b)).
  { rewrite <- mult_IZR, <- plus_IZR. f_equal. exact Hdm. }
  apply IZR_le in Hlo. apply IZR_lt in Hhi.
  split.
  - apply Rmult_le_reg_r with (r := IZR b); [exact HbR|].
    unfold Rdiv. rewrite Rmult_assoc, Rinv_l by lra. lra.
  - apply Rmult_lt_reg_r with (r := IZR b); [exact HbR|].
    unfold Rdiv. rewrite Rmult_assoc, Rinv_l by lra. lra.
Qed.

Lemma numberOfParticles_div (c : Canvas) :
  numberOfParticles c = Z.of_N (width c * height c / 15000).
Proof.
  unfold numberOfParticles, toNum.
  rewrite <- mult_IZR, <- N2Z.inj_mul.
  rewrite (Zfloor_div (Z.of_N (width c * height c)) 15000) by lia.
  rewrite N2Z.inj_div. reflexivity.
Qed.

(** ** The particle loop *)

Section RandomFacts.

Variable rnd : nat -> R.

Lemma pushParticles_eq (W H : R) (todo : nat) :
  forall k ps,
    pushParticles rnd W H todo k ps =
    (ps ++ map (fun i => newParticle rnd W H (k + 6 * i)) (seq 0 todo),
     (k + 6 * todo)%nat).
Proof.
  induction todo as [|todo IH]; intros k ps; simpl pushParticles.
  - simpl. rewrite app_nil_r. f_equal. lia.
  - rewrite IH. f_equal; [|lia].
    rewrite <- app_assoc. f_equal. simpl. f_equal.
    + f_equal. lia.
    + rewrite <- seq_shift, map_map. apply map_ext. intro i. f_equal. lia.
Qed.

Lemma createParticles_particles (k : nat) (st : CanvasLayer) :
  particles (fst (createParticles rnd k st)) =
  map (fun i => newParticle rnd (toNum (width (canvas st)))
                            (toNum (height (canvas st))) (k + 6 * i))
      (seq 0 (N.to_nat (width (canvas st) * height (canvas st) / 15000))).
Proof.
  unfold createParticles. rewrite pushParticles_eq. simpl.
  rewrite numberOfParticles_div, <- Z_N_nat, N2Z.id. reflexivity.
Qed.

Lemma createParticles_length (k : nat) (st : CanvasLayer) :
  List.length (particles (fst (createParticles rnd k st))) =
  N.to_nat (width (canvas st) * height (canvas st) / 15000).
Proof. rewrite createParticles_particles, length_map, length_seq. reflexivity. Qed.

Lemma createParticles_canvas (k : nat) (st : CanvasLayer) :
  canvas (fst (createParticles rnd k st)) = canvas st.
Proof. unfold createParticles. rewrite pushParticles_eq. reflexivity. Qed.

Hypothesis rnd_range : forall i, 0 <= rnd i < 1.

Lemma newParticle_position (W H : R) (k : nat) :
  0 < W -> 0 < H ->
  0 <= x (newParticle rnd W H k) < W /\ 0 <= y (newParticle rnd W H k) < H.
Proof.
  intros HW HH. simpl.
  pose proof (rnd_range (k + 1)) as [? ?].
  pose proof (rnd_range (k + 2)) as [? ?].
  repeat split; nra.
Qed.

Lemma newParticle_ranges (W H : R) (k : nat) :
  1 <= size (newParticle rnd W H k) < 4 /\
  -0.25 <= speedX (newParticle rnd W H k) < 0.25 /\
  -0.25 <= speedY (newParticle rnd W H k) < 0.25 /\
  200 <= hue (newParticle rnd W H k) < 260.
Proof.
  simpl.
  pose proof (rnd_range k) as [? ?].
  pose proof (rnd_range (k + 3)) as [? ?].
  pose proof (rnd_range (k + 4)) as [? ?].
  pose proof (rnd_range (k + 5)) as [? ?].
  repeat split; lra.
Qed.

End RandomFacts.

(** ** Initialization *)

(** C1. On a canvas of width W and height H, [createParticles] leaves exactly
    floor(W*H/15000) particles, every one at a position inside
    [0,W) x [0,H); on a canvas of 1500 by 1000 it leaves exactly 100. *)
Theorem createParticles_count_and_bounds :
  forall (rnd : nat -> R) (k : nat) (st : CanvasLayer),
    (forall i, 0 <= rnd i < 1) ->
    List.length (particles (fst (createParticles rnd k st))) =
      N.to_nat (width (canvas st) * height (canvas st) / 15000) /\
    Forall (fun p => 0 <= x p < toNum (width (canvas st)) /\
                     0 <= y p < toNum (height (canvas st)))
           (particles (fst (createParticles rnd k st))) /\
    (canvas st = mkCanvas 1500 1000 ->
     List.length (particles (fst (createParticles rnd k st))) = 100%nat).
Proof.
  intros rnd k st Hrnd.
  split; [apply createParticles_length|split].
  - rewrite createParticles_particles.
    apply Forall_forall. intros p Hp.
    apply in_map_iff in Hp. destruct Hp as [i [<- Hi]].
    apply in_seq in Hi.
    assert (Hn : (0 < width (canvas st) * height (canvas st) / 15000)%N) by lia.
    assert (HW : (0 < width (canvas st))%N).
    { destruct (width (canvas st)); [|lia]. rewrite N.mul_0_l in Hn.
      cbn in Hn. lia. }
    assert (HH : (0 < height (canvas st))%N).
    { destruct (height (canvas st)); [|lia]. rewrite N.mul_0_r in Hn.
      cbn in Hn. lia. }
    apply newParticle_position; auto using toNum_pos.
  - intro Hc. rewrite createParticles_length, Hc. reflexivity.
Qed.

Lemma createParticles_count_and_bounds_witness :
  List.length
    (particles (fst (createParticles (fun _ => 1 / 2) 0 constructor))) =
  3%nat.
Proof.
  destruct (createParticles_count_and_bounds (fun _ => 1 / 2) 0 constructor)
    as [Hlen _].
  - intros _. lra.
  - exact Hlen.
Defined.

(** C7, amended.  Every particle that [createParticles] leaves has its size
    in [1,4), both speeds in [-0.25,0.25) and its hue in [200,260], whatever
    the samples of [Math.random] in [0,1).  The bound 260 of the hue is
    closed: the rounded sum reaches it for the samples next to 1
    ([Binary64Rounding.newParticle_hue_reaches_260]). *)
Theorem createParticles_attribute_ranges :
  forall (rnd : nat -> R) (k : nat) (st : CanvasLayer),
    (forall i, 0 <= rnd i < 1) ->
    Forall (fun p => 1 <= size p < 4 /\
                     -0.25 <= speedX p < 0.25 /\
                     -0.25 <= speedY p < 0.25 /\
                     200 <= hue p <= 260)
           (particles (fst (createParticles rnd k st))).
Proof.
  intros rnd k st Hrnd.
  rewrite createParticles_particles.
  apply Forall_forall. intros p Hp.
  apply in_map_iff in Hp. destruct Hp as [i [<- _]].
  destruct (newParticle_ranges rnd Hrnd (toNum (width (canvas st)))
              (toNum (height (canvas st))) (k + 6 * i)) as (Hsize & Hsx & Hsy & Hhue).
  repeat split; try apply Hsize; try apply Hsx; try apply Hsy; lra.
Qed.

Lemma createParticles_attribute_ranges_witness :
  Forall (fun p => 1 <= size p < 4 /\
                   -0.25 <= speedX p < 0.25 /\
                   -0.25 <= speedY p < 0.25 /\
                   200 <= hue p <= 260)
         (particles (fst (createParticles (fun _ => 1 / 2) 0 constructor))).
Proof.
  apply (createParticles_attribute_ranges (fun _ => 1 / 2) 0 constructor).
  intros _. lra.
Defined.

(** ** Resize *)

Section ResizeFacts.

Variable rnd : nat -> R.

Lemma resizeCanvas_canvas (w h : N) (k : nat) (st : CanvasLayer) :
  canvas (fst (resizeCanvas rnd w h k st)) = mkCanvas w h.
Proof.
  unfold resizeCanvas.
  destruct (0 <? List.length (particles (set_canvas (mkCanvas w h) st)))%nat.
  - apply createParticles_canvas.
  - reflexivity.
Qed.

Lemma resizeCanvas_nonempty (w h : N) (k : nat) (st : CanvasLayer) :
  particles st <> [] ->
  resizeCanvas rnd w h k st = createParticles rnd k (set_canvas (mkCanvas w h) st).
Proof.
  intro Hne. unfold resizeCanvas. simpl particles.
  destruct (particles st) as [|p ps]; [contradiction|reflexivity].
Qed.

Lemma resizeCanvas_empty (w h : N) (k : nat) (st : CanvasLayer) :
  particles st = [] ->
  resizeCanvas rnd w h k st = (set_canvas (mkCanvas w h) st, k).
Proof.
  intro He. unfold resizeCanvas. simpl particles. rewrite He. reflexivity.
Qed.

End ResizeFacts.

(** C2.  The code at the failing input.  The page opens in a window of 100
    by 100: [initCanvasLayer] leaves no particle.  The window then grows to
    1500 by 1000: [resizeCanvas], whose comment says "Recreate particles on
    resize", finds the set empty and leaves it so, where the initialization
    rule gives 100 particles. *)
Theorem resizeCanvas_from_empty_keeps_empty :
  particles (fst (initCanvasLayer (fun _ => 1 / 2) 100 100 0 constructor)) = [] /\
  List.length
    (particles
       (fst (resizeCanvas (fun _ => 1 / 2) 1500 1000 0
               (fst (initCanvasLayer (fun _ => 1 / 2) 100 100 0 constructor)))))
  <> N.to_nat (1500 * 1000 / 15000).
Proof.
  assert (Hinit :
    particles (fst (initCanvasLayer (fun _ => 1 / 2) 100 100 0 constructor)) = []).
  { unfold initCanvasLayer. rewrite resizeCanvas_empty by reflexivity.
    rewrite createParticles_particles. reflexivity. }
  split; [exact Hinit|].
  rewrite resizeCanvas_empty by exact Hinit.
  simpl particles. rewrite Hinit. simpl. lia.
Qed.

(** X26.  [resizeCanvas] takes the new width and height; when the particle
    set before the resize is not empty it regenerates the whole set by the
    initialization rule, so that the count is floor(newW*newH/15000) and no
    particle of the old set is kept; when the set before the resize is
    empty the guard skips [createParticles]. *)
Theorem resizeCanvas_regenerates_nonempty :
  forall (rnd : nat -> R) (w h : N) (k : nat) (st : CanvasLayer),
    canvas (fst (resizeCanvas rnd w h k st)) = mkCanvas w h /\
    (particles st <> [] ->
     resizeCanvas rnd w h k st =
       createParticles rnd k (set_canvas (mkCanvas w h) st) /\
     particles (fst (resizeCanvas rnd w h k st)) =
       particles (fst (createParticles rnd k (set_canvas (mkCanvas w h) constructor))) /\
     List.length (particles (fst (resizeCanvas rnd w h k st))) =
       N.to_nat (w * h / 15000)) /\
    (particles st = [] -> particles (fst (resizeCanvas rnd w h k st)) = []).
Proof.
  intros rnd w h k st. split; [apply resizeCanvas_canvas|split].
  - intro Hne. rewrite (resizeCanvas_nonempty rnd w h k st Hne).
    split; [reflexivity|split].
    + rewrite !createParticles_particles. reflexivity.
    + rewrite createParticles_length. reflexivity.
  - intro He. rewrite (resizeCanvas_empty rnd w h k st He). simpl. exact He.
Qed.

Lemma resizeCanvas_regenerates_nonempty_witness :
  List.length
    (particles
       (fst (resizeCanvas (fun _ => 1 / 2) 1500 1000 0
               (set_particles [mkParticle 1 2 3 0 0 200 1 2] constructor)))) =
  100%nat.
Proof.
  destruct (resizeCanvas_regenerates_nonempty (fun _ => 1 / 2) 1500 1000 0
              (set_particles [mkParticle 1 2 3 0 0 200 1 2] constructor))
    as [_ [Hne _]].
  destruct Hne as [_ [_ Hlen]].
  - simpl. discriminate.
  - exact Hlen.
Defined.

(** ** The per-frame update *)

Lemma set_x_attributes (v : R) (p : Particle) : sameAttributes p (set_x v p).
Proof. repeat split. Qed.

Lemma set_y_attributes (v : R) (p : Particle) : sameAttributes p (set_y v p).
Proof. repeat split. Qed.

Lemma sameAttributes_refl (p : Particle) : sameAttributes p p.
Proof. repeat split. Qed.

Lemma sameAttributes_trans (p q r : Particle) :
  sameAttributes p q -> sameAttributes q r -> sameAttributes p r.
Proof.
  unfold sameAttributes. intros Hpq Hqr.
  decompose [and] Hpq. decompose [and] Hqr. repeat split; congruence.
Qed.

Create HintDb attrs.
#[local] Hint Resolve set_x_attributes set_y_attributes sameAttributes_refl : attrs.

(** The steps of the update are built from [set_x] and [set_y] under tests:
    split on the tests, then read the fields. *)
Ltac same_attributes :=
  repeat match goal with
         | |- context [if ?d then _ else _] => destruct d
         end;
  unfold sameAttributes; cbn; repeat split; reflexivity.

Lemma mouseInteraction_attributes (m : Mouse.t) (p : Particle) :
  sameAttributes p (mouseInteraction m p).
Proof.
  unfold mouseInteraction.
  destruct (Mouse.x m) as [mx|]; destruct (Mouse.y m) as [my|]; auto with attrs.
  same_attributes.
Qed.

Lemma returnToOriginal_attributes (p : Particle) :
  sameAttributes p (returnToOriginal p).
Proof. unfold returnToOriginal. same_attributes. Qed.

Lemma moveParticle_attributes (p : Particle) : sameAttributes p (moveParticle p).
Proof. unfold moveParticle. same_attributes. Qed.

Lemma wrapAround_attributes (c : Canvas) (p : Particle) :
  sameAttributes p (wrapAround c p).
Proof. unfold wrapAround. same_attributes. Qed.

Lemma updateParticle_attributes (m : Mouse.t) (c : Canvas) (p : Particle) :
  sameAttributes p (updateParticle m c p).
Proof.
  unfold updateParticle, moved.
  eapply sameAttributes_trans; [apply mouseInteraction_attributes|].
  eapply sameAttributes_trans; [apply returnToOriginal_attributes|].
  eapply sameAttributes_trans; [apply moveParticle_attributes|].
  apply wrapAround_attributes.
Qed.

Lemma Forall2_map_r {A B : Type} (P : A -> B -> Prop) (f : A -> B) (l : list A) :
  (forall a, P a (f a)) -> Forall2 P l (map f l).
Proof. intro H. induction l; simpl; constructor; auto. Qed.

Lemma Forall2_sameAttributes_trans (l1 l2 l3 : list Particle) :
  Forall2 sameAttributes l1 l2 -> Forall2 sameAttributes l2 l3 ->
  Forall2 sameAttributes l1 l3.
Proof.
  intro H12. revert l3.
  induction H12 as [|p q l1 l2 Hpq _ IH]; intros l3 H23; inversion H23; subst.
  - constructor.
  - constructor; [eapply sameAttributes_trans; eauto|auto].
Qed.

Lemma drawParticles_particles (st : CanvasLayer) :
  particles (fst (drawParticles st)) =
  map (updateParticle (mouse st) (canvas st)) (particles st).
Proof. reflexivity. Qed.

Lemma renderCanvas_particles (st : CanvasLayer) :
  particles (fst (renderCanvas st)) = particles (fst (drawParticles st)).
Proof. reflexivity. Qed.

Lemma Forall2_sameAttributes_refl (l : list Particle) :
  Forall2 sameAttributes l l.
Proof. induction l; constructor; auto with attrs. Qed.

Lemma handle_attributes (rnd : nat -> R) (ev : Event) (s : CanvasLayer * nat) :
  isResize ev = false ->
  Forall2 sameAttributes (particles (fst s)) (particles (fst (handle rnd ev s))).
Proof.
  destruct ev; simpl; intro Hev; try discriminate.
  - apply Forall2_map_r, updateParticle_attributes.
  - apply Forall2_sameAttributes_refl.
  - apply Forall2_sameAttributes_refl.
Qed.

Lemma run_attributes (rnd : nat -> R) (evs : list Event) :
  forall s,
    forallb (fun ev => negb (isResize ev)) evs = true ->
    Forall2 sameAttributes (particles (fst s)) (particles (fst (run rnd evs s))).
Proof.
  unfold run.
  induction evs as [|ev evs IH]; intros s Hevs; simpl.
  - apply Forall2_sameAttributes_refl.
  - simpl in Hevs. apply andb_prop in Hevs. destruct Hevs as [Hev Hevs].
    apply negb_true_iff in Hev.
    eapply Forall2_sameAttributes_trans; [apply handle_attributes; exact Hev|].
    apply IH. exact Hevs.
Qed.

(** C9. [drawParticles] writes the fields [x] and [y] of each particle and
    no other: particle by particle, size, speeds, hue and origin are after
    the frame what they were before, and the rest of the state is untouched;
    so the origin stays what it was over any run of frames and pointer events
    that holds no resize. *)
Theorem drawParticles_writes_position_only :
  forall (st : CanvasLayer),
    Forall2 sameAttributes (particles st) (particles (fst (drawParticles st))) /\
    canvas (fst (drawParticles st)) = canvas st /\
    mouse (fst (drawParticles st)) = mouse st /\
    gradientOffset (fst (drawParticles st)) = gradientOffset st /\
    (forall (rnd : nat -> R) (k : nat) (evs : list Event),
        forallb (fun ev => negb (isResize ev)) evs = true ->
        Forall2 (fun p p' => originalX p' = originalX p /\ originalY p' = originalY p)
                (particles st) (particles (fst (run rnd evs (st, k))))).
Proof.
  intro st. repeat split.
  - rewrite drawParticles_particles. apply Forall2_map_r, updateParticle_attributes.
  - intros rnd k evs Hevs.
    pose proof (run_attributes rnd evs (st, k) Hevs) as Hrun. simpl fst in Hrun.
    revert Hrun. generalize (particles (fst (run rnd evs (st, k)))).
    generalize (particles st).
    induction 1 as [|p q l1 l2 Hpq _ IH]; constructor; auto.
    unfold sameAttributes in Hpq. tauto.
Qed.

(** ** The wrap *)

(** Split on the tests of the goal, a test that reads the outcome of another
    one after it. *)
Ltac split_tests :=
  repeat match goal with
         | |- context [if ?d then _ else _] =>
             lazymatch d with
             | context [if _ then _ else _] => fail
             | _ => destruct d; cbn in *
             end
         end.

(** What the two [if] statements on a coordinate leave of it. *)

Lemma wrapAround_x (c : Canvas) (p : Particle) :
  x (wrapAround c p) =
  if Rgt_dec (x p) (toNum (width c)) then 0
  else if Rlt_dec (x p) 0 then toNum (width c) else x p.
Proof. unfold wrapAround. split_tests; try reflexivity; lra. Qed.

Lemma wrapAround_y (c : Canvas) (p : Particle) :
  y (wrapAround c p) =
  if Rgt_dec (y p) (toNum (height c)) then 0
  else if Rlt_dec (y p) 0 then toNum (height c) else y p.
Proof. unfold wrapAround. split_tests; try reflexivity; lra. Qed.

Lemma wrapAround_cases (c : Canvas) (p : Particle) :
  (toNum (width c) < x p -> x (wrapAround c p) = 0) /\
  (x p < 0 -> x (wrapAround c p) = toNum (width c)) /\
  (0 <= x p <= toNum (width c) -> x (wrapAround c p) = x p) /\
  (toNum (height c) < y p -> y (wrapAround c p) = 0) /\
  (y p < 0 -> y (wrapAround c p) = toNum (height c)) /\
  (0 <= y p <= toNum (height c) -> y (wrapAround c p) = y p).
Proof.
  pose proof (toNum_nonneg (width c)) as HW.
  pose proof (toNum_nonneg (height c)) as HH.
  rewrite wrapAround_x, wrapAround_y.
  repeat split; intros; split_tests; try reflexivity; lra.
Qed.

(** C3. In a frame, a particle whose coordinate after the three movement
    steps is beyond the bound of the canvas (x > W, y > H) ends the same
    update at 0 on that coordinate, and one whose coordinate is below 0 ends
    it at the opposite bound (W, H). *)
Theorem drawParticles_wraps_within_the_update :
  forall (st : CanvasLayer) (i : nat) (p : Particle),
    nth_error (particles st) i = Some p ->
    exists p',
      nth_error (particles (fst (drawParticles st))) i = Some p' /\
      p' = updateParticle (mouse st) (canvas st) p /\
      (toNum (width (canvas st)) < x (moved (mouse st) p) -> x p' = 0) /\
      (x (moved (mouse st) p) < 0 -> x p' = toNum (width (canvas st))) /\
      (toNum (height (canvas st)) < y (moved (mouse st) p) -> y p' = 0) /\
      (y (moved (mouse st) p) < 0 -> y p' = toNum (height (canvas st))).
Proof.
  intros st i p Hi.
  exists (updateParticle (mouse st) (canvas st) p).
  split; [|split; [reflexivity|]].
  - rewrite drawParticles_particles. apply map_nth_error. exact Hi.
  - unfold updateParticle.
    destruct (wrapAround_cases (canvas st) (moved (mouse st) p))
      as (Hx1 & Hx2 & _ & Hy1 & Hy2 & _).
    auto.
Qed.

Lemma drawParticles_wraps_within_the_update_witness :
  exists p',
    nth_error
      (particles
         (fst (drawParticles
                 (set_particles [mkParticle 299 10 2 3 0 210 300 10]
                                constructor)))) 0 = Some p' /\
    x p' = 0.
Proof.
  destruct (drawParticles_wraps_within_the_update
              (set_particles [mkParticle 299 10 2 3 0 210 300 10] constructor)
              0 (mkParticle 299 10 2 3 0 210 300 10) eq_refl)
    as (p' & Hnth & _ & Hx & _).
  exists p'. split; [exact Hnth|].
  apply Hx. cbn. unfold toNum. cbn. lra.
Defined.

(** C10. The wrap leaves every coordinate in the closed range of the canvas,
    0 <= x <= W and 0 <= y <= H: a coordinate below 0 becomes the opposite
    bound itself, whatever the overshoot; a coordinate equal to the bound, as
    any coordinate of the closed range, is left as it is; so after every
    frame every particle is within bounds. *)
Theorem wrapAround_closed_range :
  forall (c : Canvas) (p : Particle),
    inBounds c (wrapAround c p) /\
    (x p < 0 -> x (wrapAround c p) = toNum (width c)) /\
    (y p < 0 -> y (wrapAround c p) = toNum (height c)) /\
    (x p = toNum (width c) -> x (wrapAround c p) = x p) /\
    (y p = toNum (height c) -> y (wrapAround c p) = y p) /\
    (forall st : CanvasLayer,
        Forall (inBounds (canvas st)) (particles (fst (drawParticles st)))) /\
    (forall st : CanvasLayer,
        Forall (inBounds (canvas (fst (renderCanvas st))))
               (particles (fst (renderCanvas st)))).
Proof.
  intros c p.
  assert (Hin : forall c' q, inBounds c' (wrapAround c' q)).
  { intros c' q. unfold inBounds.
    pose proof (toNum_nonneg (width c')) as HW.
    pose proof (toNum_nonneg (height c')) as HH.
    rewrite wrapAround_x, wrapAround_y. split_tests; lra. }
  assert (Hdraw : forall st : CanvasLayer,
             Forall (inBounds (canvas st)) (particles (fst (drawParticles st)))).
  { intro st. rewrite drawParticles_particles.
    apply Forall_forall. intros q Hq.
    apply in_map_iff in Hq. destruct Hq as [q0 [<- _]]. apply Hin. }
  pose proof (toNum_nonneg (width c)) as HW.
  pose proof (toNum_nonneg (height c)) as HH.
  destruct (wrapAround_cases c p) as (_ & Hx2 & Hx3 & _ & Hy2 & Hy3).
  split; [apply Hin|].
  split; [exact Hx2|]. split; [exact Hy2|].
  split; [intro He; apply Hx3; lra|].
  split; [intro He; apply Hy3; lra|].
  split; [exact Hdraw|].
  intro st.
  exact (Hdraw (mkCanvasLayer (canvas st) (particles st) (mouse st)
                              (gradientOffset st + 0.0005))).
Qed.

(** ** The mouse interaction *)

Lemma distance_nonneg (dx dy : R) : 0 <= distance dx dy.
Proof. apply sqrt_pos. Qed.




Lemma mouseInteraction_near (m : Mouse.t) (p : Particle) (mx my : R) :
  Mouse.x m = Some mx -> Mouse.y m = Some my ->
  distance (mx - x p) (my - y p) < Mouse.radius m ->
  mouseInteraction m p =
  set_y (y p - sin (atan2 (my - y p) (mx - x p)) *
               force (Mouse.radius m) (distance (mx - x p) (my - y p)) * 3)
        (set_x (x p - cos (atan2 (my - y p) (mx - x p)) *
                      force (Mouse.radius m) (distance (mx - x p) (my - y p)) * 3)
               p).
Proof.
  intros Hx Hy Hd. unfold mouseInteraction. rewrite Hx, Hy.
  fold (distance (mx - x p) (my - y p)).
  destruct (Rlt_dec (distance (mx - x p) (my - y p)) (Mouse.radius m));
    [reflexivity|contradiction].
Qed.

(** Beyond the radius, and without a pointer, the step does nothing. *)
Lemma mouseInteraction_far (m : Mouse.t) (p : Particle) (mx my : R) :
  Mouse.x m = Some mx -> Mouse.y m = Some my ->
  Mouse.radius m <= distance (mx - x p) (my - y p) ->
  mouseInteraction m p = p.
Proof.
  intros Hx Hy Hd. unfold mouseInteraction. rewrite Hx, Hy.
  fold (distance (mx - x p) (my - y p)).
  destruct (Rlt_dec (distance (mx - x p) (my - y p)) (Mouse.radius m));
    [lra|reflexivity].
Qed.

(** A particle under the pointer: [Math.atan2(0, 0)] is 0 and the force is
    1, so the step moves it by 3 to the left. *)
Lemma mouseInteraction_at_pointer (m : Mouse.t) (p : Particle) :
  Mouse.x m = Some (x p) -> Mouse.y m = Some (y p) -> 0 < Mouse.radius m ->
  mouseInteraction m p = set_y (y p) (set_x (x p - 3) p).
Proof.
  intros Hx Hy Hr.
  assert (Hd : distance (x p - x p) (y p - y p) = 0).
  { unfold distance. rewrite !Rminus_diag, Rmult_0_l, Rplus_0_l. apply sqrt_0. }
  rewrite (mouseInteraction_near m p (x p) (y p) Hx Hy) by (rewrite Hd; exact Hr).
  rewrite Hd, !Rminus_diag.
  assert (Ha : atan2 0 0 = 0).
  { unfold atan2. repeat (destruct (Rlt_dec _ _); try lra). }
  rewrite Ha, cos_0, sin_0. unfold force.
  f_equal; [|f_equal]; field; lra.
Qed.




(** ** Connection lines *)

Lemma connection_near (p q : Particle) :
  distance (x p - x q) (y p - y q) < maxDistance ->
  connection p q =
  [StrokeLine (x p) (y p) (x q) (y q) (opacity (distance (x p - x q) (y p - y q)))].
Proof.
  intro Hd. unfold connection. fold (distance (x p - x q) (y p - y q)).
  destruct (Rlt_dec _ _); [reflexivity|contradiction].
Qed.

Lemma connection_far (p q : Particle) :
  maxDistance <= distance (x p - x q) (y p - y q) ->
  connection p q = [].
Proof.
  intro Hd. unfold connection. fold (distance (x p - x q) (y p - y q)).
  destruct (Rlt_dec _ _); [lra|reflexivity].
Qed.

Lemma in_connection (cmd : DrawCmd) (p q : Particle) :
  In cmd (connection p q) <->
  distance (x p - x q) (y p - y q) < maxDistance /\
  cmd = StrokeLine (x p) (y p) (x q) (y q)
                   (opacity (distance (x p - x q) (y p - y q))).
Proof.
  destruct (Rlt_dec (distance (x p - x q) (y p - y q)) maxDistance) as [Hd|Hd].
  - rewrite (connection_near p q Hd). simpl. split.
    + intros [<-|[]]. auto.
    + intros [_ ->]. auto.
  - rewrite (connection_far p q) by lra. simpl. split; [tauto|]. intros [? _]. lra.
Qed.

(** The lines of a frame are those of the pairs [i < j]. *)
Lemma in_connections (cmd : DrawCmd) (ps : list Particle) :
  In cmd (connections ps) <->
  exists i j p q,
    (i < j)%nat /\ nth_error ps i = Some p /\ nth_error ps j = Some q /\
    In cmd (connection p q).
Proof.
  induction ps as [|p0 ps IH]; simpl.
  - split; [tauto|]. intros (i & j & p & q & _ & Hi & _). destruct i; discriminate.
  - rewrite in_app_iff, in_flat_map, IH. split.
    + intros [(q & Hq & Hcmd)|(i & j & p & q & Hij & Hi & Hj & Hcmd)].
      * apply In_nth_error in Hq. destruct Hq as [j Hj].
        exists 0%nat, (S j), p0, q. repeat split; auto. lia.
      * exists (S i), (S j), p, q. repeat split; auto. lia.
    + intros (i & j & p & q & Hij & Hi & Hj & Hcmd).
      destruct j as [|j]; [lia|]. simpl in Hj.
      destruct i as [|i]; simpl in Hi.
      * left. injection Hi as <-. exists q. split; [|exact Hcmd].
        eapply nth_error_In; eauto.
      * right. exists i, j, p, q. repeat split; auto. lia.
Qed.



(** ** The mobile menu *)

Module DomFacts.

Import Dom.

Lemma contains_remove (tok : string) (l : list string) :
  contains tok (remove tok l) = false.
Proof.
  unfold contains, remove.
  induction l as [|t l IH]; simpl; [reflexivity|].
  destruct (String.eqb tok t) eqn:Ht; simpl; [exact IH|].
  rewrite Ht. exact IH.
Qed.

Lemma contains_app (tok : string) (l : list string) :
  contains tok (l ++ [tok]) = true.
Proof.
  unfold contains. rewrite existsb_app. simpl.
  rewrite String.eqb_refl. apply orb_true_iff. right. reflexivity.
Qed.

Lemma contains_toggle (tok : string) (l : list string) :
  contains tok (toggle tok l) = negb (contains tok l).
Proof.
  unfold toggle. destruct (contains tok l) eqn:Hc.
  - apply contains_remove.
  - apply contains_app.
Qed.

(** Writing the style of a span leaves the class list alone, thrown or not. *)
Lemma setStyle_navMenu (n i : nat) (f : Style -> Style) (st : Layer) :
  navMenu (snd (setStyle n i f st)) = navMenu st.
Proof.
  unfold setStyle. destruct (hamburger st); [|reflexivity].
  destruct (i <? n)%nat; reflexivity.
Qed.

Lemma bind_setStyle_navMenu {A : Type} (n i : nat) (f : Style -> Style)
      (k : M A) (st : Layer) :
  (forall st', navMenu (snd (k st')) = navMenu st') ->
  navMenu (snd (bind (setStyle n i f) (fun _ => k) st)) = navMenu st.
Proof.
  intro Hk. unfold bind.
  pose proof (setStyle_navMenu n i f st) as Hs.
  destruct (setStyle n i f st) as [[[]|] st']; simpl in *.
  - rewrite Hk. exact Hs.
  - exact Hs.
Qed.

(** The class list after the handler, whether it completed or threw on a
    missing icon or span. *)
Lemma toggleMobileMenu_navMenu (st : Layer) :
  navMenu (snd (toggleMobileMenu st)) =
  match navMenu st with
  | Some cl => Some (toggle "active" cl)
  | None => None
  end.
Proof.
  unfold toggleMobileMenu, bind at 1, onClassList.
  destruct (navMenu st) as [cl|] eqn:Hnav; [|simpl; exact Hnav].
  unfold bind at 1, querySpans. cbn [hamburger].
  destruct (hamburger st) as [spans|]; [|reflexivity].
  unfold bind at 1, isActive. cbn [navMenu].
  destruct (contains "active" (toggle "active" cl));
    repeat (rewrite bind_setStyle_navMenu; [reflexivity|intro]);
    apply setStyle_navMenu.
Qed.

Lemma toggleMobileMenu_menuActive (st : Layer) :
  menuActive (snd (toggleMobileMenu st)) =
  match navMenu st with
  | Some _ => negb (menuActive st)
  | None => false
  end.
Proof.
  unfold menuActive. rewrite toggleMobileMenu_navMenu.
  destruct (navMenu st); [apply contains_toggle|reflexivity].
Qed.

End DomFacts.

(** C8. From any state of the menu, two calls of [toggleMobileMenu] leave
    the menu with the class [active] exactly when it had it before; one call
    on a page that has the menu flips it. *)
Theorem toggleMobileMenu_twice :
  forall (st : Dom.Layer),
    Dom.menuActive (snd (Dom.toggleMobileMenu (snd (Dom.toggleMobileMenu st)))) =
      Dom.menuActive st /\
    (forall cl : list string,
        Dom.navMenu st = Some cl ->
        Dom.menuActive (snd (Dom.toggleMobileMenu st)) =
          negb (Dom.contains "active" cl)).
Proof.
  intro st. split.
  - rewrite !DomFacts.toggleMobileMenu_menuActive, DomFacts.toggleMobileMenu_navMenu.
    unfold Dom.menuActive.
    destruct (Dom.navMenu st); [apply negb_involutive|reflexivity].
  - intros cl Hcl. rewrite DomFacts.toggleMobileMenu_menuActive.
    unfold Dom.menuActive. rewrite Hcl. reflexivity.
Qed.

(** ** The mouse interaction on binary64 *)

Module Binary64Facts.

Import PrimFloat SpecFloat FloatOps FloatAxioms Binary64.

Local Open Scope Z_scope.

(** *** Digits, shifts and rounding in the specification of the format *)

Lemma digits2_pos_size (m : positive) : digits2_pos m = Pos.size m.
Proof. induction m; simpl; congruence. Qed.

Lemma digits2_pos_bounds (m : positive) :
  2 ^ (Zpos (digits2_pos m) - 1) <= Zpos m < 2 ^ Zpos (digits2_pos m).
Proof.
  rewrite digits2_pos_size.
  pose proof (Pos.size_gt m) as Hgt. pose proof (Pos.size_le m) as Hle.
  apply Pos2Z.pos_lt_pos in Hgt. apply Pos2Z.pos_le_pos in Hle.
  rewrite Pos2Z.inj_pow in Hgt, Hle.
  change (Zpos m~0) with (2 * Zpos m) in Hle.
  split; [|exact Hgt].
  assert (Hpow : 2 ^ Zpos (Pos.size m) = 2 * 2 ^ (Zpos (Pos.size m) - 1)).
  { rewrite <- Z.pow_succ_r by lia. f_equal. lia. }
  lia.
Qed.

Lemma iter_pos_iter {A : Type} (f : A -> A) (p : positive) :
  forall a, iter_pos f p a = Pos.iter f a p.
Proof.
  induction p as [p IH|p IH|]; intro a; simpl.
  - rewrite !IH. rewrite <- Pos.iter_swap. f_equal. rewrite Pos.iter_swap. reflexivity.
  - rewrite !IH. reflexivity.
  - reflexivity.
Qed.

Local Abbreviation fexp64 := (fexp prec emax).

Lemma fexp64_eq (e : Z) : fexp64 e = Z.max (e - 53) (-1074).
Proof. reflexivity. Qed.

(** One step of the right shift halves the mantissa. *)
Lemma shr_1_m (mrs : shr_record) :
  0 <= shr_m mrs -> shr_m (shr_1 mrs) = shr_m mrs / 2.
Proof.
  destruct mrs as [m r s]. simpl. intro Hm.
  destruct m as [|[p|p|]|p]; simpl; try reflexivity; try lia.
  - rewrite Pos2Z.inj_xI. apply Z.div_unique with (r := 1); lia.
  - rewrite Pos2Z.inj_xO. apply Z.div_unique with (r := 0); lia.
Qed.

Lemma shr_m_iter (p : positive) (mrs : shr_record) :
  0 <= shr_m mrs ->
  shr_m (iter_pos shr_1 p mrs) = shr_m mrs / 2 ^ Zpos p.
Proof.
  intro Hm. rewrite iter_pos_iter.
  induction p as [|p IH] using Pos.peano_ind.
  - simpl. rewrite shr_1_m by exact Hm. reflexivity.
  - rewrite Pos.iter_succ, shr_1_m.
    + rewrite IH, Pos2Z.inj_succ, Z.pow_succ_r by lia.
      rewrite Z.div_div by lia. f_equal. lia.
    + rewrite IH. apply Z.div_pos; lia.
Qed.

(** The first component of [shr_fexp] on an exact, nonnegative mantissa: the
    exponent rises to the one of the format and the mantissa is divided
    accordingly. *)
Lemma shr_fexp_exact (m e : Z) :
  0 <= m ->
  snd (shr_fexp prec emax m e loc_Exact) = Z.max e (fexp64 (Zdigits2 m + e)) /\
  shr_m (fst (shr_fexp prec emax m e loc_Exact)) =
    m / 2 ^ (Z.max e (fexp64 (Zdigits2 m + e)) - e).
Proof.
  intros Hm. unfold shr_fexp, shr.
  set (fe := fexp64 (Zdigits2 m + e)).
  destruct (fe - e) as [|k|k] eqn:Hk; cbn [fst snd shr_record_of_loc shr_m].
  - replace (Z.max e fe) with e by lia.
    rewrite Z.sub_diag, Z.div_1_r. split; reflexivity.
  - replace (Z.max e fe) with (e + Zpos k) by lia.
    split; [reflexivity|].
    rewrite shr_m_iter by exact Hm. cbn [shr_m]. f_equal. f_equal. lia.
  - replace (Z.max e fe) with e by lia.
    rewrite Z.sub_diag, Z.div_1_r. split; reflexivity.
Qed.

Lemma round_nearest_even_bounds (m : Z) (l : location) :
  m <= round_nearest_even m l <= m + 1.
Proof.
  destruct l as [|[]]; simpl; try lia.
  destruct (Z.even m); lia.
Qed.

Lemma Zdigits2_bounds (m : Z) :
  0 < m -> 2 ^ (Zdigits2 m - 1) <= m < 2 ^ Zdigits2 m.
Proof.
  destruct m as [|p|p]; try lia. intros _. simpl. apply digits2_pos_bounds.
Qed.

Lemma Zdigits2_le (m d : Z) : 0 <= d -> 0 <= m < 2 ^ d -> Zdigits2 m <= d.
Proof.
  intros Hd [Hm0 Hm].
  destruct (Z.eq_dec m 0) as [->|Hne]; [simpl; lia|].
  pose proof (Zdigits2_bounds m ltac:(lia)) as [Hlo _].
  destruct (Z_le_gt_dec (Zdigits2 m) d) as [Hle|Hgt]; [exact Hle|exfalso].
  assert (2 ^ d <= 2 ^ (Zdigits2 m - 1)) by (apply Z.pow_le_mono_r; lia).
  lia.
Qed.

(** Rounding a positive mantissa that represents less than the largest
    finite number does not overflow. *)
Lemma binary_round_aux_finite (s : bool) (mz : positive) (ez : Z) :
  ez <= 971 ->
  Zpos mz < (2 ^ 53 - 1) * 2 ^ (971 - ez) ->
  isFiniteSF (binary_round_aux prec emax s (Zpos mz) ez loc_Exact) = true.
Proof.
  intros Hez Hmz.
  unfold binary_round_aux.
  destruct (shr_fexp_exact (Zpos mz) ez ltac:(lia)) as [He' Hm1].
  destruct (shr_fexp prec emax (Zpos mz) ez loc_Exact) as [mrs' e'].
  cbn [fst snd] in He', Hm1. rewrite <- He' in Hm1.
  pose proof (round_nearest_even_bounds (shr_m mrs') (loc_of_shr_record mrs')) as Hm2.
  set (m2 := round_nearest_even (shr_m mrs') (loc_of_shr_record mrs')) in *.
  set (m1 := shr_m mrs') in *.
  (* the digits of the mantissa *)
  pose proof (Zdigits2_bounds (Zpos mz) ltac:(lia)) as [Hdlo Hdhi].
  set (d := Zdigits2 (Zpos mz)) in *.
  assert (Hd1 : 1 <= d) by (unfold d; simpl; lia).
  rewrite fexp64_eq in He'.
  assert (Hpow53 : 0 < 2 ^ 53) by (apply Z.pow_pos_nonneg; lia).
  assert (Hpe : 0 < 2 ^ (971 - ez)) by (apply Z.pow_pos_nonneg; lia).
  assert (Hd : d + ez <= 1024).
  { assert (Hlt : 2 ^ (d - 1) < 2 ^ (1024 - ez)).
    { replace (1024 - ez) with (53 + (971 - ez)) by lia.
      rewrite Z.pow_add_r by lia. nia. }
    apply Z.pow_lt_mono_r_iff in Hlt; lia. }
  set (k := e' - ez) in *.
  assert (Hk0 : 0 <= k) by lia.
  assert (Hk : d - 53 <= k) by lia.
  assert (Hpk : 0 < 2 ^ k) by (apply Z.pow_pos_nonneg; lia).
  assert (Hm1nn : 0 <= m1) by (rewrite Hm1; apply Z.div_pos; lia).
  assert (Hm1lt : m1 < 2 ^ 53).
  { rewrite Hm1. apply Z.div_lt_upper_bound; [exact Hpk|].
    rewrite <- Z.pow_add_r by lia.
    apply Z.lt_le_trans with (1 := Hdhi). apply Z.pow_le_mono_r; lia. }
  assert (He'le : e' <= 971) by lia.
  assert (He'ge : -1074 <= e') by lia.
  destruct (shr_fexp_exact m2 e' ltac:(lia)) as [He'' Hm3].
  destruct (shr_fexp prec emax m2 e' loc_Exact) as [mrs'' e''].
  cbn [fst snd] in He'', Hm3. rewrite <- He'' in Hm3.
  rewrite fexp64_eq in He''.
  assert (Hm3nn : 0 <= shr_m mrs'').
  { rewrite Hm3. apply Z.div_pos; [lia|]. apply Z.pow_pos_nonneg; lia. }
  assert (He''le : e'' <= 971).
  { destruct (Z_lt_le_dec m2 (2 ^ 53)) as [Hlt|Hge].
    - pose proof (Zdigits2_le m2 53 ltac:(lia) ltac:(lia)). lia.
    - assert (Hm1eq : m1 = 2 ^ 53 - 1) by lia.
      assert (Hmul : 2 ^ k * m1 <= Zpos mz).
      { rewrite Hm1. apply Z.mul_div_le. exact Hpk. }
      assert (Hklt : 2 ^ k < 2 ^ (971 - ez)) by nia.
      apply Z.pow_lt_mono_r_iff in Hklt; [|lia|lia].
      assert (Hm2lt : m2 < 2 ^ 54).
      { change (2 ^ 54) with (2 * 2 ^ 53). lia. }
      pose proof (Zdigits2_le m2 54 ltac:(lia) ltac:(lia)). lia. }
  destruct (shr_m mrs'') as [|m3|m3]; [reflexivity| |lia].
  replace (e'' <=? emax - prec) with true; [reflexivity|].
  symmetry. apply Z.leb_le. change (emax - prec) with 971. exact He''le.
Qed.

Lemma iter_xO (m d : positive) : Zpos (Pos.iter xO m d) = Zpos m * 2 ^ Zpos d.
Proof.
  induction d as [|d IH] using Pos.peano_ind.
  - simpl. lia.
  - rewrite Pos.iter_succ, Pos2Z.inj_xO, IH, Pos2Z.inj_succ, Z.pow_succ_r by lia.
    ring.
Qed.

(** Aligning a mantissa on a lower exponent multiplies it by the power of
    two between the exponents. *)
Lemma shl_align_spec (m : positive) (e e' : Z) :
  snd (shl_align m e e') = Z.min e e' /\
  Zpos (fst (shl_align m e e')) = Zpos m * 2 ^ (e - Z.min e e').
Proof.
  unfold shl_align.
  destruct (e' - e) as [|k|k] eqn:Hk; cbn [fst snd].
  - replace (Z.min e e') with e by lia. rewrite Z.sub_diag. simpl. lia.
  - replace (Z.min e e') with e by lia. rewrite Z.sub_diag. simpl. lia.
  - replace (Z.min e e') with e' by lia. split; [reflexivity|].
    rewrite iter_xO. f_equal. f_equal. lia.
Qed.

Lemma binary_round_finite (s : bool) (m : positive) (e : Z) :
  e <= 971 ->
  Zpos m < (2 ^ 53 - 1) * 2 ^ (971 - e) ->
  isFiniteSF (binary_round prec emax s m e) = true.
Proof.
  intros He Hm. unfold binary_round.
  destruct (shl_align_spec m e (fexp64 (Zpos (digits2_pos m) + e))) as [He' Hm'].
  destruct (shl_align m e (fexp64 (Zpos (digits2_pos m) + e))) as [mz ez].
  cbn [fst snd] in He', Hm'.
  assert (Hle : ez <= e) by lia.
  apply binary_round_aux_finite; [lia|].
  rewrite Hm', <- He'.
  replace (971 - ez) with ((971 - e) + (e - ez)) by lia.
  rewrite Z.pow_add_r by lia.
  assert (0 < 2 ^ (e - ez)) by (apply Z.pow_pos_nonneg; lia).
  nia.
Qed.

Lemma binary_normalize_finite (m e : Z) (szero : bool) :
  e <= 971 ->
  Z.abs m < (2 ^ 53 - 1) * 2 ^ (971 - e) ->
  isFiniteSF (binary_normalize prec emax m e szero) = true.
Proof.
  intros He Hm. destruct m as [|p|p]; simpl binary_normalize.
  - reflexivity.
  - apply binary_round_finite; [exact He|exact Hm].
  - apply binary_round_finite; [exact He|exact Hm].
Qed.

(** What validity says of a finite number: a mantissa of at most 53 bits
    and an exponent of at most 971. *)
Lemma bounded_spec (m : positive) (e : Z) :
  bounded prec emax m e = true -> Zpos m < 2 ^ 53 /\ e <= 971.
Proof.
  unfold bounded, canonical_mantissa. intro Hb.
  apply andb_prop in Hb. destruct Hb as [Hc He].
  apply Z.eqb_eq in Hc. apply Z.leb_le in He.
  change (emax - prec) with 971 in He.
  rewrite fexp64_eq in Hc.
  split; [|exact He].
  pose proof (digits2_pos_bounds m) as [_ Hhi].
  apply Z.lt_le_trans with (1 := Hhi). apply Z.pow_le_mono_r; lia.
Qed.

(** Taking 3 from a finite number leaves a finite number. *)
Lemma SF64sub_three_finite (v : spec_float) :
  valid_binary v = true -> isFiniteSF v = true ->
  isFiniteSF (SF64sub v three_SF) = true.
Proof.
  intros Hv Hf. destruct v as [s|s| |s m e]; try discriminate; [reflexivity|].
  simpl in Hv. apply bounded_spec in Hv. destruct Hv as [Hm He].
  destruct (Z.eq_dec e 971) as [He971|He971];
    [destruct (Pos.eq_dec m 9007199254740991) as [Hmax|Hmax];
     [destruct s; [subst; vm_compute; reflexivity|]|]|].
  all: unfold SF64sub, SFsub, three_SF.
  all: set (ez := Z.min e (-51)).
  all: destruct (shl_align_spec m e ez) as [_ Ha];
    destruct (shl_align_spec 6755399441055744 (-51) ez) as [_ Hc].
  all: replace (Z.min e ez) with ez in Ha by lia;
    replace (Z.min (-51) ez) with ez in Hc by lia.
  all: set (A := Zpos (fst (shl_align m e ez))) in *;
    set (C := Zpos (fst (shl_align 6755399441055744 (-51) ez))) in *.
  all: apply binary_normalize_finite; [lia|].
  all: assert (Hu : 0 < 2 ^ (-51 - ez)) by (apply Z.pow_pos_nonneg; lia).
  all: assert (HA0 : 0 < A) by (unfold A; lia);
    assert (HC0 : 0 < C) by (unfold C; lia).
  all: assert (Hbd : (2 ^ 53 - 1) * 2 ^ (971 - ez) =
                     (2 ^ 53 - 1) * 2 ^ 1022 * 2 ^ (-51 - ez))
    by (rewrite <- Z.mul_assoc, <- Z.pow_add_r by lia; do 2 f_equal; lia).
  all: rewrite Hbd.
  all: assert (HC : C = 6755399441055744 * 2 ^ (-51 - ez)) by exact Hc.
  all: assert (HAle : A <= (2 ^ 53 - 1) * 2 ^ (e - ez))
    by (rewrite Ha; apply Z.mul_le_mono_nonneg_r;
        [apply Z.pow_nonneg; lia|lia]).
  all: assert (Hpe : 2 ^ (e - ez) <= 2 ^ 1022 * 2 ^ (-51 - ez))
    by (rewrite <- Z.pow_add_r by lia; apply Z.pow_le_mono_r; lia).
  all: assert (H1022 : 6755399441055744 * 4 < 2 ^ 1022)
    by (apply Z.ltb_lt; vm_compute; reflexivity).
  all: set (u := 2 ^ (-51 - ez)) in *; set (P := 2 ^ 1022) in *;
    set (B := 2 ^ 53) in *.
  all: assert (HB : 2 <= B - 1) by (unfold B; apply Z.leb_le; vm_compute; reflexivity).
  - (* the largest positive number *)
    cbn [cond_Zopp]. nia.
  - (* exponent 971, a mantissa short of the largest *)
    assert (Hm' : Zpos m <= B - 2) by (unfold B in *; lia).
    assert (HA' : A <= (B - 2) * (P * u)).
    { rewrite Ha. subst e. unfold ez.
      replace (971 - Z.min 971 (-51)) with 1022 by lia.
      replace (-51 - Z.min 971 (-51)) with 0 by lia.
      simpl (2 ^ 0). fold P. nia. }
    destruct s; cbn [cond_Zopp]; nia.
  - (* a lower exponent *)
    assert (Hpe' : 2 * 2 ^ (e - ez) <= P * u).
    { unfold P, u. rewrite <- Z.pow_succ_r, <- Z.pow_add_r by lia.
      apply Z.pow_le_mono_r; lia. }
    destruct s; cbn [cond_Zopp]; nia.
Qed.

Local Open Scope float_scope.

(** [is_finite] on a primitive float reads off its specification. *)
Lemma is_finite_SF (v : float) : is_finite v = isFiniteSF (Prim2SF v).
Proof.
  unfold is_finite, is_nan, is_infinity.
  rewrite !FloatAxioms.eqb_spec, FloatAxioms.abs_spec.
  change (Prim2SF infinity) with (S754_infinity false).
  destruct (Prim2SF v) as [s|s| |s m e];
    [destruct s; reflexivity|destruct s; reflexivity|reflexivity|].
  unfold SFeqb, SFabs, SFcompare.
  rewrite Z.compare_refl, Pos.compare_cont_refl.
  destruct s; reflexivity.
Qed.

Lemma sub_three_finite (v : float) : is_finite v = true -> is_finite (v - 3) = true.
Proof.
  rewrite !is_finite_SF, FloatAxioms.sub_spec. intro Hf.
  change (Prim2SF 3) with three_SF.
  apply SF64sub_three_finite; [apply Prim2SF_valid|exact Hf].
Qed.

(** A finite number minus itself is [+0]. *)
Lemma sub_diag_finite (v : float) : is_finite v = true -> v - v = 0.
Proof.
  rewrite is_finite_SF. intro Hf.
  apply Prim2SF_inj. rewrite FloatAxioms.sub_spec.
  change (Prim2SF 0) with (S754_zero false).
  destruct (Prim2SF v) as [s|s| |s m e]; try discriminate.
  - destruct s; reflexivity.
  - unfold SF64sub, SFsub. rewrite Z.sub_diag. reflexivity.
Qed.

(** Taking [+0] from a finite number leaves it as it is. *)
Lemma sub_zero_finite (v : float) : is_finite v = true -> v - 0 = v.
Proof.
  rewrite is_finite_SF. intro Hf.
  apply Prim2SF_inj. rewrite FloatAxioms.sub_spec.
  change (Prim2SF 0) with (S754_zero false).
  destruct (Prim2SF v) as [s|s| |s m e]; try discriminate.
  - destruct s; reflexivity.
  - reflexivity.
Qed.

Lemma is_finite_not_nan (v : float) : is_finite v = true -> is_nan v = false.
Proof.
  unfold is_finite. intro Hf. apply negb_true_iff, orb_false_iff in Hf. apply Hf.
Qed.

(** C5. With the particle exactly under the pointer (d = 0), at any finite
    position, the mouse interaction yields no NaN: the host gives
    [Math.atan2(0, 0) = 0], [Math.cos(0) = 1] and [Math.sin(0) = 0], the
    force is 1, and the step leaves the particle at (x - 3, y), both
    coordinates finite. *)
Theorem mouseInteraction_on_pointer_is_finite :
  forall (Math_atan2 : float -> float -> float) (Math_cos Math_sin : float -> float)
         (vx vy : float),
    Math_atan2 0 0 = 0 -> Math_cos 0 = 1 -> Math_sin 0 = 0 ->
    is_finite vx = true -> is_finite vy = true ->
    mouseInteraction Math_atan2 Math_cos Math_sin
      (mkMouse (Some vx) (Some vy) 150) (mkPosition vx vy) =
      mkPosition (vx - 3) vy /\
    is_nan (vx - 3) = false /\ is_nan vy = false /\
    is_finite (vx - 3) = true /\ is_finite vy = true.
Proof.
  intros Math_atan2 Math_cos Math_sin vx vy Hatan2 Hcos Hsin Hx Hy.
  pose proof (sub_three_finite vx Hx) as Hx3.
  split; [|auto using is_finite_not_nan].
  unfold mouseInteraction.
  cbn [mouseX mouseY radius x y].
  rewrite (sub_diag_finite vx Hx), (sub_diag_finite vy Hy).
  change (sqrt (0 * 0 + 0 * 0)) with 0.
  change (0 <? 150) with true. cbv iota.
  rewrite Hatan2, Hcos, Hsin.
  change ((150 - 0) / 150) with 1.
  change (1 * 1 * 3) with 3.
  change (0 * 1 * 3) with 0.
  rewrite (sub_zero_finite vy Hy). reflexivity.
Qed.

Lemma mouseInteraction_on_pointer_is_finite_witness :
  mouseInteraction (fun _ _ => 0) (fun _ => 1) (fun _ => 0)
    (mkMouse (Some 10) (Some 20) 150) (mkPosition 10 20) =
    mkPosition (10 - 3) 20 /\
  is_nan (10 - 3) = false /\ is_nan 20 = false /\
  is_finite (10 - 3) = true /\ is_finite 20 = true.
Proof.
  apply (mouseInteraction_on_pointer_is_finite (fun _ _ => 0) (fun _ => 1) (fun _ => 0)
           10 20); reflexivity.
Defined.

End Binary64Facts.

(** * The canvas layer over its life *)

Section LifeFacts.

Variable rnd : nat -> R.

Lemma createParticles_mouse (k : nat) (st : CanvasLayer) :
  mouse (fst (createParticles rnd k st)) = mouse st.
Proof. unfold createParticles. rewrite pushParticles_eq. reflexivity. Qed.

Lemma createParticles_counter (k : nat) (st : CanvasLayer) :
  snd (createParticles rnd k st) =
  (k + 6 * N.to_nat (width (canvas st) * height (canvas st) / 15000))%nat.
Proof.
  unfold createParticles. rewrite pushParticles_eq. simpl.
  rewrite numberOfParticles_div, <- Z_N_nat, N2Z.id. reflexivity.
Qed.

Lemma run_app (evs1 evs2 : list Event) (s : CanvasLayer * nat) :
  run rnd (evs1 ++ evs2) s = run rnd evs2 (run rnd evs1 s).
Proof. unfold run. apply fold_left_app. Qed.

(** An invariant of the handlers holds after any run. *)
Lemma run_invariant (Inv : CanvasLayer * nat -> Prop) :
  (forall ev s, Inv s -> Inv (handle rnd ev s)) ->
  forall evs s, Inv s -> Inv (run rnd evs s).
Proof.
  intros Hstep evs. unfold run.
  induction evs as [|ev evs IH]; intros s Hs; simpl; auto.
Qed.

Lemma resizeCanvas_particles_empty (w h : N) (k : nat) (st : CanvasLayer) :
  particles st = [] -> particles (fst (resizeCanvas rnd w h k st)) = [].
Proof. intro He. rewrite resizeCanvas_empty by exact He. exact He. Qed.

Lemma handle_particles_empty (ev : Event) (s : CanvasLayer * nat) :
  particles (fst s) = [] -> particles (fst (handle rnd ev s)) = [].
Proof.
  intro He. destruct ev; simpl.
  - rewrite He. reflexivity.
  - exact He.
  - exact He.
  - apply resizeCanvas_particles_empty. exact He.
Qed.

Lemma handle_mouse_radius (ev : Event) (s : CanvasLayer * nat) :
  Mouse.radius (mouse (fst (handle rnd ev s))) = Mouse.radius (mouse (fst s)).
Proof.
  destruct ev; simpl; try reflexivity.
  unfold resizeCanvas.
  destruct (0 <? List.length (particles (set_canvas (mkCanvas innerWidth innerHeight) (fst s))))%nat.
  - rewrite createParticles_mouse. reflexivity.
  - reflexivity.
Qed.

Lemma handle_pointer (ev : Event) (s : CanvasLayer * nat) :
  pointerWellFormed (mouse (fst s)) ->
  pointerWellFormed (mouse (fst (handle rnd ev s))).
Proof.
  unfold pointerWellFormed. intros [Hr Hxy].
  split; [rewrite handle_mouse_radius; exact Hr|].
  destruct ev; simpl; try exact Hxy.
  - right. eauto.
  - left. auto.
  - unfold resizeCanvas.
    destruct (0 <? List.length (particles (set_canvas (mkCanvas innerWidth innerHeight) (fst s))))%nat.
    + rewrite createParticles_mouse. exact Hxy.
    + exact Hxy.
Qed.

Hypothesis rnd_range : forall i, 0 <= rnd i < 1.

Lemma createParticles_settled (k : nat) (st : CanvasLayer) :
  Forall (settled (canvas st)) (particles (fst (createParticles rnd k st))).
Proof.
  rewrite createParticles_particles.
  apply Forall_forall. intros p Hp.
  apply in_map_iff in Hp. destruct Hp as [i [<- Hi]].
  apply in_seq in Hi.
  assert (Hn : (0 < width (canvas st) * height (canvas st) / 15000)%N) by lia.
  assert (HW : (0 < width (canvas st))%N).
  { destruct (width (canvas st)); [|lia]. rewrite N.mul_0_l in Hn. cbn in Hn. lia. }
  assert (HH : (0 < height (canvas st))%N).
  { destruct (height (canvas st)); [|lia]. rewrite N.mul_0_r in Hn. cbn in Hn. lia. }
  destruct (newParticle_position rnd rnd_range (toNum (width (canvas st)))
              (toNum (height (canvas st))) (0 + k + 6 * i))
    as [Hx Hy]; auto using toNum_pos.
  unfold settled, inBounds. simpl in *. lra.
Qed.

Lemma updateParticle_settled (m : Mouse.t) (c : Canvas) (p : Particle) :
  settled c p -> settled c (updateParticle m c p).
Proof.
  unfold settled. intros (_ & Hox & Hoy).
  pose proof (updateParticle_attributes m c p) as Ha.
  unfold sameAttributes in Ha. destruct Ha as (_ & _ & _ & _ & Hx & Hy).
  rewrite Hx, Hy. split; [|split; assumption].
  unfold updateParticle, inBounds.
  pose proof (toNum_nonneg (width c)). pose proof (toNum_nonneg (height c)).
  rewrite wrapAround_x, wrapAround_y. split_tests; lra.
Qed.

Lemma handle_settled (ev : Event) (s : CanvasLayer * nat) :
  Forall (settled (canvas (fst s))) (particles (fst s)) ->
  Forall (settled (canvas (fst (handle rnd ev s)))) (particles (fst (handle rnd ev s))).
Proof.
  intro Hs. destruct ev; simpl.
  - apply Forall_forall. intros q Hq.
    apply in_map_iff in Hq. destruct Hq as [p [<- Hp]].
    apply updateParticle_settled. eapply Forall_forall in Hs; eauto.
  - exact Hs.
  - exact Hs.
  - unfold resizeCanvas.
    destruct (0 <? List.length (particles (set_canvas (mkCanvas innerWidth innerHeight) (fst s))))%nat eqn:Hlen.
    + rewrite createParticles_canvas. apply createParticles_settled.
    + simpl in *. destruct (particles (fst s)); [constructor|discriminate].
Qed.

End LifeFacts.

(** X1. Whatever the size of the window at start and whatever events follow
    (frames, pointer moves, resizes), every particle is within the canvas of
    the moment, 0 <= x <= W and 0 <= y <= H, and its origin is a point of
    that canvas. *)
Theorem run_keeps_particles_settled :
  forall (rnd : nat -> R) (w h : N) (k : nat) (evs : list Event),
    (forall i, 0 <= rnd i < 1) ->
    Forall (settled (canvas (fst (run rnd evs (initCanvasLayer rnd w h k constructor)))))
           (particles (fst (run rnd evs (initCanvasLayer rnd w h k constructor)))).
Proof.
  intros rnd w h k evs Hrnd.
  apply (run_invariant rnd
           (fun s => Forall (settled (canvas (fst s))) (particles (fst s)))).
  - intros ev s. apply handle_settled. exact Hrnd.
  - unfold initCanvasLayer. rewrite resizeCanvas_empty by reflexivity.
    rewrite createParticles_canvas. apply createParticles_settled. exact Hrnd.
Qed.

Lemma run_keeps_particles_settled_witness :
  Forall (settled (canvas (fst (run (fun _ => 1 / 2) [AnimationFrame; Resize 200 200]
                                   (initCanvasLayer (fun _ => 1 / 2) 300 150 0 constructor)))))
         (particles (fst (run (fun _ => 1 / 2) [AnimationFrame; Resize 200 200]
                              (initCanvasLayer (fun _ => 1 / 2) 300 150 0 constructor)))).
Proof.
  apply (run_keeps_particles_settled (fun _ => 1 / 2) 300 150 0
           [AnimationFrame; Resize 200 200]).
  intros _. lra.
Defined.

(** X2. After any run of events from the start, the particle set is empty
    or holds exactly floor(W*H/15000) particles for the canvas of the
    moment: frames and pointer events never create or drop a particle. *)
Theorem run_particle_count :
  forall (rnd : nat -> R) (w h : N) (k : nat) (evs : list Event),
    particles (fst (run rnd evs (initCanvasLayer rnd w h k constructor))) = [] \/
    List.length (particles (fst (run rnd evs (initCanvasLayer rnd w h k constructor)))) =
      N.to_nat (width (canvas (fst (run rnd evs (initCanvasLayer rnd w h k constructor)))) *
                height (canvas (fst (run rnd evs (initCanvasLayer rnd w h k constructor)))) /
                15000).
Proof.
  intros rnd w h k evs.
  apply (run_invariant rnd
           (fun s => particles (fst s) = [] \/
                     List.length (particles (fst s)) =
                       N.to_nat (width (canvas (fst s)) * height (canvas (fst s)) / 15000))).
  - intros ev s [He|Hlen].
    + left. apply handle_particles_empty. exact He.
    + destruct ev; simpl.
      * right. rewrite length_map. exact Hlen.
      * right. exact Hlen.
      * right. exact Hlen.
      * destruct (particles (fst s)) as [|p ps] eqn:Hps.
        -- left. apply resizeCanvas_particles_empty. exact Hps.
        -- right. rewrite resizeCanvas_nonempty by (rewrite Hps; discriminate).
           rewrite createParticles_length, createParticles_canvas. reflexivity.
  - right. unfold initCanvasLayer. rewrite resizeCanvas_empty by reflexivity.
    rewrite createParticles_length, createParticles_canvas. reflexivity.
Qed.

(** X3. An empty particle set stays empty: no frame, pointer event or resize
    brings a particle back.  So a page that starts in a window of less than
    15000 square pixels never shows a particle, however large the window
    grows. *)
Theorem empty_particle_set_is_final :
  forall (rnd : nat -> R) (evs : list Event) (s : CanvasLayer * nat),
    particles (fst s) = [] ->
    particles (fst (run rnd evs s)) = [] /\
    (forall (w h : N) (k : nat),
        (w * h < 15000)%N ->
        particles (fst (run rnd evs (initCanvasLayer rnd w h k constructor))) = []).
Proof.
  intros rnd evs s He.
  assert (Hrun : forall s0, particles (fst s0) = [] ->
                            particles (fst (run rnd evs s0)) = []).
  { apply (run_invariant rnd (fun s0 => particles (fst s0) = [])).
    intros ev s0. apply handle_particles_empty. }
  split; [apply Hrun; exact He|].
  intros w h k Hwh. apply Hrun.
  unfold initCanvasLayer. rewrite resizeCanvas_empty by reflexivity.
  rewrite createParticles_particles. simpl.
  rewrite N.div_small by exact Hwh. reflexivity.
Qed.

Lemma empty_particle_set_is_final_witness :
  particles (fst (run (fun _ => 1 / 2) [Resize 1500 1000; AnimationFrame]
                      (constructor, 0%nat))) = [].
Proof.
  destruct (empty_particle_set_is_final (fun _ => 1 / 2)
              [Resize 1500 1000; AnimationFrame] (constructor, 0%nat) eq_refl)
    as [Hrun _].
  exact Hrun.
Defined.

(** X4. In every state reached from the start the pointer record keeps the
    radius 150 and has its two coordinates both null or both set; it is
    null after a mouseout, and then the mouse interaction moves no
    particle. *)
Theorem run_keeps_pointer_well_formed :
  forall (rnd : nat -> R) (w h : N) (k : nat) (evs : list Event),
    pointerWellFormed
      (mouse (fst (run rnd evs (initCanvasLayer rnd w h k constructor)))) /\
    (forall p : Particle,
        mouseInteraction
          (mouse (fst (run rnd (evs ++ [MouseOut])
                           (initCanvasLayer rnd w h k constructor)))) p = p).
Proof.
  intros rnd w h k evs. split.
  - apply (run_invariant rnd (fun s => pointerWellFormed (mouse (fst s)))).
    + intros ev s. apply handle_pointer.
    + unfold initCanvasLayer. rewrite resizeCanvas_empty by reflexivity.
      rewrite createParticles_mouse. split; [reflexivity|]. left. split; reflexivity.
  - intro p. rewrite run_app. reflexivity.
Qed.

(** * What a frame paints *)

Lemma length_connection (p q : Particle) : (List.length (connection p q) <= 1)%nat.
Proof. unfold connection. destruct (Rlt_dec _ _); simpl; lia. Qed.

Lemma length_flat_map_connection (p : Particle) (ps : list Particle) :
  (List.length (flat_map (connection p) ps) <= List.length ps)%nat.
Proof.
  induction ps as [|q ps IH]; simpl; [lia|].
  rewrite length_app. pose proof (length_connection p q). lia.
Qed.

Lemma length_connections (ps : list Particle) :
  (2 * List.length (connections ps) <= List.length ps * (List.length ps - 1))%nat.
Proof.
  induction ps as [|p ps IH]; simpl; [lia|].
  rewrite length_app. pose proof (length_flat_map_connection p ps).
  rewrite Nat.sub_0_r. nia.
Qed.

Lemma distance_sym (dx dy : R) : distance (- dx) (- dy) = distance dx dy.
Proof. unfold distance. f_equal. ring. Qed.

(** X7. The connection pass of a frame on n particles draws at most
    n(n-1)/2 lines, none at all for fewer than two particles; every line it
    draws has an opacity in (0, 0.3]; and whether two particles are joined
    does not depend on which of them comes first in the array. *)
Theorem drawConnections_bounds :
  forall (st : CanvasLayer),
    (2 * List.length (drawConnections st) <=
       List.length (particles st) * (List.length (particles st) - 1))%nat /\
    ((List.length (particles st) < 2)%nat -> drawConnections st = []) /\
    (forall cmd : DrawCmd,
        In cmd (drawConnections st) ->
        exists x1 y1 x2 y2 a,
          cmd = StrokeLine x1 y1 x2 y2 a /\ 0 < a <= 0.3) /\
    (forall p q : Particle, connection p q = [] <-> connection q p = []).
Proof.
  intro st. unfold drawConnections. split; [apply length_connections|split; [|split]].
  - intro Hlen. pose proof (length_connections (particles st)) as Hc.
    destruct (connections (particles st)) as [|c cs]; [reflexivity|].
    simpl in Hc. destruct (particles st) as [|p [|q ps]]; simpl in *; lia.
  - intros cmd Hin. apply in_connections in Hin.
    destruct Hin as (i & j & p & q & _ & _ & _ & Hcmd).
    apply in_connection in Hcmd. destruct Hcmd as [Hd ->].
    exists (x p), (y p), (x q), (y q), (opacity (distance (x p - x q) (y p - y q))).
    split; [reflexivity|].
    pose proof (distance_nonneg (x p - x q) (y p - y q)).
    unfold opacity, maxDistance in *. lra.
  - intros p q.
    assert (Hsym : distance (x q - x p) (y q - y p) = distance (x p - x q) (y p - y q)).
    { rewrite <- distance_sym. f_equal; ring. }
    destruct (Rlt_dec (distance (x p - x q) (y p - y q)) maxDistance) as [Hd|Hd].
    + rewrite (connection_near p q Hd), (connection_near q p) by (rewrite Hsym; exact Hd).
      split; discriminate.
    + rewrite (connection_far p q), (connection_far q p) by (rewrite ?Hsym; lra).
      tauto.
Qed.

(** ** The gradient *)






(** ** The floating shapes *)

(** X9. Whatever the clock and the canvas, a frame draws three hexagons and
    then two circles, all visible and faint: a hexagon has a circumradius in
    [40, 80] and an opacity from 0.05 to under 0.16, a circle a radius in
    [25, 55] and an opacity in [0.04, 0.12]; the centre of the hexagon i
    stays less than 101 from (0.2 W, 0.3 H + 200 i) on each axis, the centre
    of a circle less than 151 from (0.7 W, 0.5 H).  The amplitudes of the
    source are 0.05 about 0.1 for the opacity of a hexagon, 100 and 150 for
    the centres: the bounds stated leave room for the rounding of the
    sums. *)
Theorem drawFloatingShapes_ranges :
  forall (now : R) (c : Canvas),
    List.length (drawFloatingShapes now c) = 5%nat /\
    (forall i : nat,
        (i < 3)%nat ->
        exists cx cy rotation size alpha,
          nth_error (drawFloatingShapes now c) i =
            Some (Hexagon cx cy rotation (hexagonPath size) alpha) /\
          Rabs (cx - toNum (width c) * 0.2) < 101 /\
          Rabs (cy - (toNum (height c) * 0.3 + INR i * 200)) < 101 /\
          40 <= size <= 80 /\ 0.05 <= alpha < 0.16) /\
    (forall i : nat,
        (i < 2)%nat ->
        exists cx cy radius alpha,
          nth_error (drawFloatingShapes now c) (3 + i) = Some (Circle cx cy radius alpha) /\
          Rabs (cx - toNum (width c) * 0.7) < 151 /\
          Rabs (cy - toNum (height c) * 0.5) < 151 /\
          25 <= radius <= 55 /\ 0.04 <= alpha <= 0.12).
Proof.
  intros now c. split; [reflexivity|split].
  - intros i Hi.
    assert (Hnth : nth_error (drawFloatingShapes now c) i =
                   Some (hexagon c (now * 0.001) i)).
    { destruct i as [|[|[|i]]]; try reflexivity; lia. }
    unfold hexagon in Hnth.
    eexists _, _, _, _, _. split; [exact Hnth|].
    pose proof (SIN_bound (now * 0.001 * 0.5 + INR i * 2)) as [? ?].
    pose proof (COS_bound (now * 0.001 * 0.3 + INR i * 2)) as [? ?].
    pose proof (SIN_bound (now * 0.001 + INR i)) as [? ?].
    pose proof (SIN_bound (now * 0.001 * 2 + INR i)) as [? ?].
    repeat split; try (apply Rabs_def1); lra.
  - intros i Hi.
    assert (Hnth : nth_error (drawFloatingShapes now c) (3 + i) =
                   Some (circle c (now * 0.001) i)).
    { destruct i as [|[|i]]; try reflexivity; lia. }
    unfold circle in Hnth.
    eexists _, _, _, _. split; [exact Hnth|].
    pose proof (COS_bound (now * 0.001 * 0.4 + INR i * 3)) as [? ?].
    pose proof (SIN_bound (now * 0.001 * 0.6 + INR i * 3)) as [? ?].
    pose proof (SIN_bound (now * 0.001 * 1.5 + INR i)) as [? ?].
    pose proof (COS_bound (now * 0.001 * 2 + INR i)) as [? ?].
    repeat split; try (apply Rabs_def1); lra.
Qed.

(** * The mobile menu *)

Module MenuFacts.

Import Dom Clicks DomFacts.

Lemma remove_remove (tok : string) (l : list string) :
  remove tok (remove tok l) = remove tok l.
Proof.
  unfold remove. induction l as [|t l IH]; simpl; [reflexivity|].
  destruct (String.eqb tok t) eqn:Ht; simpl; [exact IH|].
  rewrite Ht. simpl. f_equal. exact IH.
Qed.

Lemma remove_app_tok (tok : string) (l : list string) :
  remove tok (l ++ [tok]) = remove tok l.
Proof.
  unfold remove. rewrite filter_app. simpl.
  rewrite String.eqb_refl. simpl. apply app_nil_r.
Qed.

Lemma remove_toggle (tok : string) (l : list string) :
  remove tok (toggle tok l) = remove tok l.
Proof.
  unfold toggle. destruct (contains tok l); [apply remove_remove|apply remove_app_tok].
Qed.

Lemma contains_remove_other (tok other : string) (l : list string) :
  other <> tok -> contains other (remove tok l) = contains other l.
Proof.
  intro Hne. unfold contains, remove.
  induction l as [|t l IH]; simpl; [reflexivity|].
  destruct (String.eqb tok t) eqn:Ht; simpl.
  - apply String.eqb_eq in Ht. subst t.
    replace (String.eqb other tok) with false; [exact IH|].
    symmetry. apply String.eqb_neq. exact Hne.
  - rewrite IH. reflexivity.
Qed.

Lemma contains_toggle_other (tok other : string) (l : list string) :
  other <> tok -> contains other (toggle tok l) = contains other l.
Proof.
  intro Hne. unfold toggle. destruct (contains tok l).
  - apply contains_remove_other. exact Hne.
  - unfold contains. rewrite existsb_app. simpl.
    replace (String.eqb other tok) with false; [rewrite !orb_false_r; reflexivity|].
    symmetry. apply String.eqb_neq. exact Hne.
Qed.

Lemma closeMobileMenu_navMenu (st : Layer) :
  navMenu (snd (closeMobileMenu st)) =
  match navMenu st with
  | Some cl => Some (remove "active" cl)
  | None => None
  end.
Proof.
  unfold closeMobileMenu, bind at 1, onClassList.
  destruct (navMenu st) as [cl|] eqn:Hnav; [|simpl; exact Hnav].
  unfold bind at 1, querySpans. cbn [hamburger].
  destruct (hamburger st) as [spans|]; [|reflexivity].
  repeat (rewrite bind_setStyle_navMenu; [reflexivity|intro]).
  apply setStyle_navMenu.
Qed.

(** The handlers on a page that has the menu and an icon of three bars or
    more. *)
Lemma toggleMobileMenu_complete (s0 s1 s2 : Style) (rest : list Style)
      (cl : list string) :
  toggleMobileMenu (mkLayer (Some (s0 :: s1 :: s2 :: rest)) (Some cl)) =
  (Some tt,
   mkLayer (Some (iconOf (negb (contains "active" cl)) s0 s1 s2 ++ rest)%list)
           (Some (toggle "active" cl))).
Proof.
  unfold toggleMobileMenu, bind, onClassList, querySpans, isActive, setStyle.
  cbn [navMenu hamburger List.length Nat.ltb Nat.leb].
  rewrite contains_toggle.
  destruct (contains "active" cl); reflexivity.
Qed.

Lemma closeMobileMenu_complete (s0 s1 s2 : Style) (rest : list Style)
      (cl : list string) :
  closeMobileMenu (mkLayer (Some (s0 :: s1 :: s2 :: rest)) (Some cl)) =
  (Some tt,
   mkLayer (Some (iconOf false s0 s1 s2 ++ rest)%list) (Some (remove "active" cl))).
Proof. reflexivity. Qed.

Lemma iconOf_iconOf (a b : bool) (s0 s1 s2 : Style) (rest : list Style) :
  exists t0 t1 t2,
    (iconOf b s0 s1 s2 ++ rest)%list = t0 :: t1 :: t2 :: rest /\
    iconOf a t0 t1 t2 = iconOf a s0 s1 s2.
Proof. destruct a, b; eexists _, _, _; split; reflexivity. Qed.

Lemma click_complete (c : Click) (s0 s1 s2 : Style) (rest : list Style)
      (cl : list string) :
  exists cl',
    click c (mkLayer (Some (s0 :: s1 :: s2 :: rest)) (Some cl)) =
    (Some tt,
     mkLayer (Some (iconOf (switch (contains "active" cl) c) s0 s1 s2 ++ rest)%list)
             (Some cl')) /\
    contains "active" cl' = switch (contains "active" cl) c.
Proof.
  unfold click. cbn [registered hamburger navMenu].
  destruct c; cbn [switch].
  - rewrite toggleMobileMenu_complete. eexists. split; [reflexivity|].
    apply contains_toggle.
  - rewrite closeMobileMenu_complete. eexists. split; [reflexivity|].
    apply contains_remove.
Qed.

Lemma clicks_complete (cs : list Click) :
  forall (s0 s1 s2 : Style) (rest : list Style) (cl : list string),
    fst (clicks cs (mkLayer (Some (s0 :: s1 :: s2 :: rest)) (Some cl))) = true /\
    menuActive (snd (clicks cs (mkLayer (Some (s0 :: s1 :: s2 :: rest)) (Some cl)))) =
      fold_left switch cs (contains "active" cl) /\
    (cs <> [] ->
     hamburger (snd (clicks cs (mkLayer (Some (s0 :: s1 :: s2 :: rest)) (Some cl)))) =
       Some (iconOf (fold_left switch cs (contains "active" cl)) s0 s1 s2 ++ rest)%list).
Proof.
  induction cs as [|c cs IH]; intros s0 s1 s2 rest cl.
  - simpl. repeat split. intro H. contradiction.
  - cbn [clicks fold_left].
    destruct (click_complete c s0 s1 s2 rest cl) as (cl' & -> & Hcl').
    destruct (iconOf_iconOf (fold_left switch cs (switch (contains "active" cl) c))
                (switch (contains "active" cl) c) s0 s1 s2 rest)
      as (t0 & t1 & t2 & Hicon & Hsame).
    rewrite Hicon.
    destruct (IH t0 t1 t2 rest cl') as (Hok & Hact & Hico).
    destruct (clicks cs (mkLayer (Some (t0 :: t1 :: t2 :: rest)) (Some cl')))
      as [ok st''] eqn:Hcs.
    cbn [fst snd] in *. rewrite Hcl' in *.
    split; [exact Hok|]. split; [exact Hact|].
    intros _. destruct cs as [|c' cs'].
    + cbn [clicks] in Hcs. injection Hcs as _ <-. cbn [hamburger fold_left].
      rewrite <- Hicon. reflexivity.
    + rewrite Hico by discriminate. rewrite Hsame. reflexivity.
Qed.

End MenuFacts.

(** X11. On a page that has the menu and an icon of at least three bars,
    every run of clicks on the icon and on the links of the menu completes
    without a throw; the menu is a switch that the icon flips and a link
    turns off; and after the first click the three bars show the cross
    exactly when the menu is open, the bars beyond the third and the other
    style properties being left as they were. *)
Theorem menu_clicks_switch :
  forall (s0 s1 s2 : Dom.Style) (rest : list Dom.Style) (cl : list string)
         (cs : list Clicks.Click),
    fst (Clicks.clicks cs (Dom.mkLayer (Some (s0 :: s1 :: s2 :: rest)) (Some cl))) = true /\
    Dom.menuActive
      (snd (Clicks.clicks cs (Dom.mkLayer (Some (s0 :: s1 :: s2 :: rest)) (Some cl)))) =
      fold_left Clicks.switch cs (Dom.contains "active" cl) /\
    (cs <> [] ->
     Dom.hamburger
       (snd (Clicks.clicks cs (Dom.mkLayer (Some (s0 :: s1 :: s2 :: rest)) (Some cl)))) =
       Some (Clicks.iconOf (fold_left Clicks.switch cs (Dom.contains "active" cl))
                           s0 s1 s2 ++ rest)).
Proof. intros. apply MenuFacts.clicks_complete. Qed.

(** X12. On an icon of fewer than three bars the handlers throw, yet the
    class of the menu is written before: [toggleMobileMenu] has flipped it
    and [closeMobileMenu] has removed it.  On a page that lacks the menu or
    the icon no click listener is registered and a click changes nothing. *)
Theorem menu_short_icon :
  forall (spans : list Dom.Style) (cl : list string),
    (List.length spans < 3)%nat ->
    fst (Dom.toggleMobileMenu (Dom.mkLayer (Some spans) (Some cl))) = None /\
    Dom.navMenu (snd (Dom.toggleMobileMenu (Dom.mkLayer (Some spans) (Some cl)))) =
      Some (Dom.toggle "active" cl) /\
    fst (Dom.closeMobileMenu (Dom.mkLayer (Some spans) (Some cl))) = None /\
    Dom.navMenu (snd (Dom.closeMobileMenu (Dom.mkLayer (Some spans) (Some cl)))) =
      Some (Dom.remove "active" cl) /\
    (forall (st : Dom.Layer) (c : Clicks.Click),
        Dom.hamburger st = None \/ Dom.navMenu st = None ->
        Clicks.click c st = (Some tt, st)).
Proof.
  intros spans cl Hlen.
  split; [|split; [|split; [|split]]].
  - unfold Dom.toggleMobileMenu, Dom.bind, Dom.onClassList, Dom.querySpans,
      Dom.isActive, Dom.setStyle.
    cbn [Dom.navMenu Dom.hamburger].
    destruct (Dom.contains "active" (Dom.toggle "active" cl));
      destruct spans as [|s0 [|s1 [|s2 rest]]]; simpl in Hlen; try lia; reflexivity.
  - rewrite DomFacts.toggleMobileMenu_navMenu. reflexivity.
  - destruct spans as [|s0 [|s1 [|s2 rest]]]; simpl in Hlen; try lia; reflexivity.
  - rewrite MenuFacts.closeMobileMenu_navMenu. reflexivity.
  - intros st c [H|H]; unfold Clicks.click, Clicks.registered; rewrite H;
      [reflexivity|destruct (Dom.hamburger st); reflexivity].
Qed.

Lemma menu_short_icon_witness :
  fst (Dom.toggleMobileMenu
         (Dom.mkLayer (Some [Dom.mkStyle "" ""; Dom.mkStyle "" ""]) (Some ["nav-menu"%string]))) =
    None /\
  Dom.navMenu
    (snd (Dom.toggleMobileMenu
            (Dom.mkLayer (Some [Dom.mkStyle "" ""; Dom.mkStyle "" ""])
                         (Some ["nav-menu"%string])))) =
    Some (Dom.toggle "active" ["nav-menu"%string]).
Proof.
  destruct (menu_short_icon [Dom.mkStyle "" ""; Dom.mkStyle "" ""] ["nav-menu"%string])
    as (H1 & H2 & _).
  - simpl. lia.
  - split; [exact H1|exact H2].
Defined.

(** X13. Toggling an open menu is closing it: when the menu has the class
    [active], [toggleMobileMenu] and [closeMobileMenu] leave the same page
    and complete or throw alike. *)
Theorem toggle_open_menu_is_close :
  forall (st : Dom.Layer),
    Dom.menuActive st = true ->
    Dom.toggleMobileMenu st = Dom.closeMobileMenu st.
Proof.
  intros st Hact. unfold Dom.menuActive in Hact.
  destruct st as [ham nav]. cbn [Dom.navMenu] in Hact.
  destruct nav as [cl|]; [|discriminate].
  unfold Dom.toggleMobileMenu, Dom.closeMobileMenu, Dom.bind at 1 4, Dom.onClassList.
  cbn [Dom.navMenu Dom.hamburger].
  assert (Ht : Dom.toggle "active" cl = Dom.remove "active" cl).
  { unfold Dom.toggle. rewrite Hact. reflexivity. }
  rewrite Ht.
  unfold Dom.bind at 1 3, Dom.querySpans. cbn [Dom.hamburger].
  destruct ham as [spans|]; [|reflexivity].
  unfold Dom.bind at 1, Dom.isActive. cbn [Dom.navMenu].
  rewrite DomFacts.contains_remove. reflexivity.
Qed.

Lemma toggle_open_menu_is_close_witness :
  Dom.toggleMobileMenu (Dom.mkLayer (Some []) (Some ["active"%string])) =
  Dom.closeMobileMenu (Dom.mkLayer (Some []) (Some ["active"%string])).
Proof. apply toggle_open_menu_is_close. reflexivity. Defined.

(** X14. [closeMobileMenu] leaves the menu closed and is idempotent: a
    second call leaves the page as the first did and completes or throws as
    the first did, whatever the page. *)
Theorem closeMobileMenu_idempotent :
  forall (st : Dom.Layer),
    Dom.menuActive (snd (Dom.closeMobileMenu st)) = false /\
    Dom.closeMobileMenu (snd (Dom.closeMobileMenu st)) = Dom.closeMobileMenu st.
Proof.
  intros [ham nav]. split.
  - unfold Dom.menuActive. rewrite MenuFacts.closeMobileMenu_navMenu.
    cbn [Dom.navMenu]. destruct nav; [apply DomFacts.contains_remove|reflexivity].
  - destruct nav as [cl|]; [|reflexivity].
    destruct ham as [[|s0 [|s1 [|s2 rest]]]|];
      cbv [Dom.closeMobileMenu Dom.bind Dom.onClassList Dom.querySpans Dom.setStyle
           Dom.navMenu Dom.hamburger List.length Nat.ltb Nat.leb Dom.update snd
           Dom.setTransform Dom.setOpacity Dom.transform Dom.opacity];
      rewrite ?MenuFacts.remove_remove; reflexivity.
Qed.

(** X15. The handlers touch no class but [active]: after [toggleMobileMenu]
    or [closeMobileMenu], completed or thrown, the class list of the menu
    without [active] is what it was, the classes in the same order. *)
Theorem menu_handlers_keep_other_classes :
  forall (st : Dom.Layer) (cl : list string),
    Dom.navMenu st = Some cl ->
    (exists cl', Dom.navMenu (snd (Dom.toggleMobileMenu st)) = Some cl' /\
                 Dom.remove "active" cl' = Dom.remove "active" cl /\
                 forall other : string,
                   other <> "active"%string ->
                   Dom.contains other cl' = Dom.contains other cl) /\
    (exists cl', Dom.navMenu (snd (Dom.closeMobileMenu st)) = Some cl' /\
                 Dom.remove "active" cl' = Dom.remove "active" cl /\
                 forall other : string,
                   other <> "active"%string ->
                   Dom.contains other cl' = Dom.contains other cl).
Proof.
  intros st cl Hcl. split.
  - exists (Dom.toggle "active" cl).
    rewrite DomFacts.toggleMobileMenu_navMenu, Hcl.
    split; [reflexivity|]. split; [apply MenuFacts.remove_toggle|].
    intros other Hne. apply MenuFacts.contains_toggle_other. exact Hne.
  - exists (Dom.remove "active" cl).
    rewrite MenuFacts.closeMobileMenu_navMenu, Hcl.
    split; [reflexivity|]. split; [apply MenuFacts.remove_remove|].
    intros other Hne. apply MenuFacts.contains_remove_other. exact Hne.
Qed.

Lemma menu_handlers_keep_other_classes_witness :
  exists cl',
    Dom.navMenu
      (snd (Dom.toggleMobileMenu
              (Dom.mkLayer None (Some ["nav-menu"%string; "active"%string])))) = Some cl' /\
    Dom.remove "active" cl' = Dom.remove "active" ["nav-menu"%string; "active"%string].
Proof.
  destruct (menu_handlers_keep_other_classes
              (Dom.mkLayer None (Some ["nav-menu"%string; "active"%string]))
              ["nav-menu"%string; "active"%string] eq_refl)
    as [(cl' & Hnav & Hrem & _) _].
  exists cl'. split; [exact Hnav|exact Hrem].
Defined.

(** * The check of an address and the mail links *)

Module EmailFacts.

Import Email.

Lemma matches_seq (r1 r2 : Regex) (s : jsstring) :
  Matches (Seq r1 r2) s <-> exists s1 s2, s = s1 ++ s2 /\ Matches r1 s1 /\ Matches r2 s2.
Proof.
  split.
  - intro H. inversion H; subst. eauto.
  - intros (s1 & s2 & -> & H1 & H2). constructor; assumption.
Qed.

Lemma matches_alt (r1 r2 : Regex) (s : jsstring) :
  Matches (Alt r1 r2) s <-> Matches r1 s \/ Matches r2 s.
Proof.
  split.
  - intro H. inversion H; subst; auto.
  - intros [H|H]; [apply MAltL|apply MAltR]; exact H.
Qed.

Lemma matches_class (p : N -> bool) (s : jsstring) :
  Matches (Class p) s <-> exists c, s = [c] /\ p c = true.
Proof.
  split.
  - intro H. inversion H; subst. eauto.
  - intros (c & -> & Hc). constructor. exact Hc.
Qed.

Lemma nullable_spec (r : Regex) : nullable r = true <-> Matches r [].
Proof.
  induction r as [| |p|r1 IH1 r2 IH2|r1 IH1 r2 IH2|r IH]; simpl.
  - split; [discriminate|]. intro H. inversion H.
  - split; [constructor|reflexivity].
  - split; [discriminate|]. intro H. inversion H.
  - rewrite andb_true_iff, IH1, IH2, matches_seq. split.
    + intros [H1 H2]. exists [], []. auto.
    + intros (s1 & s2 & Heq & H1 & H2). symmetry in Heq.
      apply app_eq_nil in Heq. destruct Heq; subst. auto.
  - rewrite orb_true_iff, IH1, IH2, matches_alt. tauto.
  - split; [constructor|reflexivity].
Qed.

(** A match of [r*] on a string that starts with [c] starts with a match of
    [r] that takes [c]. *)
Lemma star_cons (r : Regex) (c : N) (s : jsstring) :
  Matches (Star r) (c :: s) ->
  exists s1 s2, s = s1 ++ s2 /\ Matches r (c :: s1) /\ Matches (Star r) s2.
Proof.
  intro H. remember (Star r) as r' eqn:Hr. remember (c :: s) as cs eqn:Hcs.
  revert s Hcs.
  induction H as [| | | | | |r0 s1 s2 H1 _ H2 IH2]; intros s' Hcs; try discriminate.
  injection Hr as ->.
  destruct s1 as [|c1 s1].
  - apply IH2; [reflexivity|exact Hcs].
  - injection Hcs as -> <-. exists s1, s2. auto.
Qed.

Lemma deriv_spec (c : N) (r : Regex) :
  forall s, Matches (deriv c r) s <-> Matches r (c :: s).
Proof.
  induction r as [| |p|r1 IH1 r2 IH2|r1 IH1 r2 IH2|r IH]; intro s; simpl.
  - split; intro H; inversion H.
  - split; intro H; inversion H.
  - rewrite matches_class. destruct (p c) eqn:Hp; split.
    + intro H. inversion H. exists c. auto.
    + intros (c' & Heq & _). injection Heq as Hc Hs. subst. constructor.
    + intro H. inversion H.
    + intros (c' & Heq & Hc'). injection Heq as Hc Hs. subst. congruence.
  - assert (Hseq : Matches (Seq (deriv c r1) r2) s <->
                   exists s1 s2, s = s1 ++ s2 /\ Matches r1 (c :: s1) /\ Matches r2 s2).
    { rewrite matches_seq. split; intros (s1 & s2 & Heq & H1 & H2);
        exists s1, s2; (split; [exact Heq|split; [apply IH1; exact H1|exact H2]]). }
    assert (Hinv : Matches (Seq r1 r2) (c :: s) <->
                   (exists s1 s2, s = s1 ++ s2 /\ Matches r1 (c :: s1) /\ Matches r2 s2) \/
                   (Matches r1 [] /\ Matches r2 (c :: s))).
    { rewrite matches_seq. split.
      - intros (s1 & s2 & Heq & H1 & H2). destruct s1 as [|c1 s1].
        + right. simpl in Heq. subst s2. auto.
        + injection Heq as <- ->. left. eauto.
      - intros [(s1 & s2 & -> & H1 & H2)|[H1 H2]].
        + exists (c :: s1), s2. auto.
        + exists [], (c :: s). auto. }
    rewrite Hinv. destruct (nullable r1) eqn:Hn.
    + rewrite matches_alt, Hseq, IH2.
      apply nullable_spec in Hn. tauto.
    + rewrite Hseq. split; [tauto|].
      intros [H|[Hnil _]]; [exact H|].
      apply nullable_spec in Hnil. congruence.
  - rewrite !matches_alt, IH1, IH2. tauto.
  - rewrite matches_seq. split.
    + intros (s1 & s2 & -> & H1 & H2).
      apply IH in H1. apply (MStarCons r (c :: s1) s2 H1 H2).
    + intro H. apply star_cons in H. destruct H as (s1 & s2 & -> & H1 & H2).
      exists s1, s2. split; [reflexivity|]. split; [apply IH; exact H1|exact H2].
Qed.

(** [test] decides the match of the whole string. *)
Lemma test_spec (s : jsstring) : forall r, test r s = true <-> Matches r s.
Proof.
  unfold test. induction s as [|c s IH]; intro r; simpl.
  - apply nullable_spec.
  - rewrite IH. apply deriv_spec.
Qed.

Lemma matches_star_class (p : N -> bool) (s : jsstring) :
  Matches (Star (Class p)) s <-> Forall (fun c => p c = true) s.
Proof.
  split.
  - intro H. remember (Star (Class p)) as r eqn:Hr.
    induction H as [| | | | | |r0 s1 s2 H1 _ H2 IH2]; try discriminate.
    + constructor.
    + injection Hr as ->. inversion H1; subst. constructor; auto.
  - induction 1 as [|c s Hc _ IH].
    + constructor.
    + apply (MStarCons (Class p) [c] s); [constructor; exact Hc|exact IH].
Qed.

Lemma matches_plus_class (p : N -> bool) (s : jsstring) :
  Matches (Plus (Class p)) s <-> s <> [] /\ Forall (fun c => p c = true) s.
Proof.
  unfold Plus. split.
  - intro H. inversion H as [| |? ? s1 s2 H1 H2| | | |]; subst.
    inversion H1; subst. apply matches_star_class in H2.
    split; [discriminate|]. constructor; assumption.
  - intros [Hne Hall]. destruct Hall as [|c s Hc Hs]; [contradiction|].
    apply (MSeq (Class p) (Star (Class p)) [c] s); [constructor; exact Hc|].
    apply matches_star_class. exact Hs.
Qed.

Lemma validateEmail_matches (s : jsstring) :
  validateEmail s = true <->
  exists l d t,
    s = l ++ atSign :: d ++ dot :: t /\
    (l <> [] /\ Forall (fun c => plain c = true) l) /\
    (d <> [] /\ Forall (fun c => plain c = true) d) /\
    (t <> [] /\ Forall (fun c => plain c = true) t).
Proof.
  unfold validateEmail, re. rewrite test_spec. split.
  - intro H.
    apply matches_seq in H. destruct H as (l & s1 & -> & Hl & H).
    apply matches_seq in H. destruct H as (a & s2 & -> & Ha & H).
    apply matches_seq in H. destruct H as (d & s3 & -> & Hd & H).
    apply matches_seq in H. destruct H as (o & t & -> & Ho & Ht).
    apply matches_class in Ha. destruct Ha as (ca & -> & Hca).
    apply matches_class in Ho. destruct Ho as (co & -> & Hco).
    apply N.eqb_eq in Hca. apply N.eqb_eq in Hco. subst ca co.
    apply matches_plus_class in Hl, Hd, Ht.
    exists l, d, t. auto.
  - intros (l & d & t & -> & Hl & Hd & Ht).
    apply matches_plus_class in Hl, Hd, Ht.
    apply matches_seq. exists l, (atSign :: d ++ dot :: t).
    split; [reflexivity|split; [exact Hl|]].
    apply matches_seq. exists [atSign], (d ++ dot :: t).
    split; [reflexivity|split; [constructor; apply N.eqb_refl|]].
    apply matches_seq. exists d, (dot :: t).
    split; [reflexivity|split; [exact Hd|]].
    apply matches_seq. exists [dot], t.
    split; [reflexivity|split; [constructor; apply N.eqb_refl|exact Ht]].
Qed.

Lemma plain_spec (c : N) :
  plain c = true <-> isWhiteSpace c = false /\ c <> atSign.
Proof.
  unfold plain. rewrite andb_true_iff, !negb_true_iff, N.eqb_neq. tauto.
Qed.

Lemma count_at_plain (l : jsstring) :
  Forall (fun c => plain c = true) l -> count_occ N.eq_dec l atSign = 0%nat.
Proof.
  induction 1 as [|c l Hc _ IH]; [reflexivity|].
  apply plain_spec in Hc. simpl.
  destruct (N.eq_dec c atSign); [tauto|exact IH].
Qed.

Lemma no_space_plain (l : jsstring) :
  Forall (fun c => plain c = true) l -> Forall (fun c => isWhiteSpace c = false) l.
Proof.
  apply Forall_impl. intros c Hc. apply plain_spec in Hc. tauto.
Qed.

Lemma stripPrefix_app (pat s : jsstring) : stripPrefix pat (pat ++ s) = Some s.
Proof.
  induction pat as [|a pat IH]; simpl; [destruct s; reflexivity|].
  rewrite N.eqb_refl. exact IH.
Qed.

Lemma stripPrefix_some (pat s rest : jsstring) :
  stripPrefix pat s = Some rest -> s = pat ++ rest.
Proof.
  revert s. induction pat as [|a pat IH]; intros s H.
  - destruct s; injection H as <-; reflexivity.
  - destruct s as [|b s]; simpl in H; [discriminate|].
    destruct (a =? b)%N eqn:Hab; [|discriminate].
    apply N.eqb_eq in Hab. subst b. simpl. f_equal. apply IH. exact H.
Qed.

Lemma replace_unfold (pat rep s : jsstring) :
  replace pat rep s =
  match stripPrefix pat s with
  | Some rest => rep ++ rest
  | None => match s with [] => [] | c :: s' => c :: replace pat rep s' end
  end.
Proof. destruct s; reflexivity. Qed.

Lemma replace_absent (pat rep s : jsstring) :
  (forall pre post, s <> pre ++ pat ++ post) -> replace pat rep s = s.
Proof.
  induction s as [|c s IH]; intro Habs; rewrite replace_unfold.
  - destruct (stripPrefix pat []) as [rest|] eqn:Hs; [|reflexivity].
    apply stripPrefix_some in Hs. exfalso. apply (Habs [] rest). exact Hs.
  - destruct (stripPrefix pat (c :: s)) as [rest|] eqn:Hs.
    + apply stripPrefix_some in Hs. exfalso. apply (Habs [] rest). exact Hs.
    + f_equal. apply IH. intros pre post Heq.
      apply (Habs (c :: pre) post). simpl. f_equal. exact Heq.
Qed.

End EmailFacts.

(** X16. [validateEmail] accepts exactly the strings of the form
    local@domain.tail in which the three parts are not empty and hold
    neither white space nor another @ (a dot counts as any other code
    unit). *)
Theorem validateEmail_accepts :
  forall (email : Email.jsstring),
    Email.validateEmail email = true <->
    exists l d t : Email.jsstring,
      email = l ++ Email.atSign :: d ++ Email.dot :: t /\
      (l <> [] /\ Forall (fun c => Email.isWhiteSpace c = false /\ c <> Email.atSign) l) /\
      (d <> [] /\ Forall (fun c => Email.isWhiteSpace c = false /\ c <> Email.atSign) d) /\
      (t <> [] /\ Forall (fun c => Email.isWhiteSpace c = false /\ c <> Email.atSign) t).
Proof.
  intro email. rewrite EmailFacts.validateEmail_matches.
  assert (Hp : forall l : Email.jsstring,
             Forall (fun c => Email.plain c = true) l <->
             Forall (fun c => Email.isWhiteSpace c = false /\ c <> Email.atSign) l).
  { intro l. split; apply Forall_impl; intros c Hc; apply EmailFacts.plain_spec; exact Hc. }
  split; intros (l & d & t & Heq & [Hl1 Hl2] & [Hd1 Hd2] & [Ht1 Ht2]);
    exists l, d, t; repeat split; try assumption; apply Hp; assumption.
Qed.

(** X17. A string that [validateEmail] accepts holds exactly one @, no
    white space, and at least five code units; the empty string is
    rejected. *)
Theorem validateEmail_necessary :
  forall (email : Email.jsstring),
    Email.validateEmail email = true ->
    count_occ N.eq_dec email Email.atSign = 1%nat /\
    Forall (fun c => Email.isWhiteSpace c = false) email /\
    (5 <= List.length email)%nat /\
    Email.validateEmail [] = false.
Proof.
  intros email H. apply EmailFacts.validateEmail_matches in H.
  destruct H as (l & d & t & -> & [Hl Hpl] & [Hd Hpd] & [Ht Hpt]).
  split; [|split; [|split; [|reflexivity]]].
  - rewrite count_occ_app. simpl. rewrite count_occ_app. simpl.
    rewrite !EmailFacts.count_at_plain by assumption.
    destruct (N.eq_dec Email.atSign Email.atSign) as [_|Hne]; [|contradiction].
    destruct (N.eq_dec Email.dot Email.atSign) as [Heq|_]; [discriminate|reflexivity].
  - apply Forall_app. split; [apply EmailFacts.no_space_plain; exact Hpl|].
    constructor; [reflexivity|].
    apply Forall_app. split; [apply EmailFacts.no_space_plain; exact Hpd|].
    constructor; [reflexivity|apply EmailFacts.no_space_plain; exact Hpt].
  - rewrite length_app. simpl. rewrite length_app. simpl.
    destruct l; [contradiction|]. destruct d; [contradiction|].
    destruct t; [contradiction|]. simpl. lia.
Qed.

Lemma validateEmail_necessary_witness :
  count_occ N.eq_dec (Email.units "a@b.c") Email.atSign = 1%nat.
Proof.
  destruct (validateEmail_necessary (Email.units "a@b.c")) as [Hc _].
  - vm_compute. reflexivity.
  - exact Hc.
Defined.

(** X18. The text copied from a mail link is its href without the leading
    [mailto:]: whatever follows is kept as it is, also a second [mailto:];
    an href that holds no [mailto:] is copied whole. *)
Theorem emailOf_strips_the_scheme :
  forall (addr : Email.jsstring),
    Email.emailOf (Email.units "mailto:" ++ addr) = addr /\
    (forall href : Email.jsstring,
        (forall pre post, href <> pre ++ Email.units "mailto:" ++ post) ->
        Email.emailOf href = href).
Proof.
  intro addr. unfold Email.emailOf. split.
  - rewrite EmailFacts.replace_unfold, EmailFacts.stripPrefix_app. reflexivity.
  - intros href Habs. apply EmailFacts.replace_absent. exact Habs.
Qed.

(** * The navbar, the frame loop and destroy *)

Module NavbarFacts.

Import Navbar.

Lemma scrolls_without_navbar (ys : list R) (ls : R) :
  scrolls ys (mkLayer None ls) = mkLayer None ls.
Proof. unfold scrolls. induction ys as [|y ys IH]; simpl; auto. Qed.

Lemma scrolls_with_navbar (ys : list R) :
  forall (shadow : string) (ls : R),
  exists shadow' ls', scrolls ys (mkLayer (Some shadow) ls) = mkLayer (Some shadow') ls'.
Proof.
  unfold scrolls. induction ys as [|y ys IH]; intros shadow ls; simpl.
  - eauto.
  - apply IH.
Qed.

End NavbarFacts.

(** X19. On a page with the navbar, after any run of scroll events the
    shadow of the navbar is decided by the last position alone, the deeper
    shadow exactly when that position is beyond 50 (at 50 itself the resting
    one), and [lastScroll] is that position.  On a page without the navbar
    every scroll throws and [lastScroll] stays what it was. *)
Theorem updateNavbarEffect_follows_last_scroll :
  forall (ys : list R) (y : R) (shadow : string) (ls : R),
    Navbar.scrolls (ys ++ [y]) (Navbar.mkLayer (Some shadow) ls) =
      Navbar.mkLayer
        (Some (if Rgt_dec y 50 then Navbar.scrolledShadow else Navbar.restingShadow)) y /\
    (Navbar.navbar (Navbar.scrolls (ys ++ [y]) (Navbar.mkLayer (Some shadow) ls)) =
       Some Navbar.scrolledShadow <-> 50 < y) /\
    fst (Navbar.updateNavbarEffect y (Navbar.mkLayer None ls)) = None /\
    Navbar.scrolls (ys ++ [y]) (Navbar.mkLayer None ls) = Navbar.mkLayer None ls.
Proof.
  intros ys y shadow ls.
  assert (Hlast : Navbar.scrolls (ys ++ [y]) (Navbar.mkLayer (Some shadow) ls) =
                  Navbar.mkLayer
                    (Some (if Rgt_dec y 50 then Navbar.scrolledShadow
                           else Navbar.restingShadow)) y).
  { unfold Navbar.scrolls. rewrite fold_left_app.
    destruct (NavbarFacts.scrolls_with_navbar ys shadow ls) as (s' & l' & Hs).
    unfold Navbar.scrolls in Hs. rewrite Hs. reflexivity. }
  split; [exact Hlast|]. split; [|split; [reflexivity|apply NavbarFacts.scrolls_without_navbar]].
  rewrite Hlast. cbn [Navbar.navbar].
  destruct (Rgt_dec y 50) as [Hy|Hy]; split; intro H.
  - exact Hy.
  - reflexivity.
  - discriminate.
  - unfold Rgt in Hy. contradiction.
Qed.

Module LifecycleFacts.

Import Lifecycle.
Local Open Scope list_scope.

Lemma removeListener_fresh (type : string) (n : nat) (ls : list (string * nat)) :
  Forall (fun l => (snd l < n)%nat) ls -> removeListener (type, n) ls = ls.
Proof.
  induction 1 as [|l ls Hl _ IH]; simpl; [reflexivity|].
  unfold sameListener. cbn [fst snd].
  replace (Nat.eqb n (snd l)) with false.
  - rewrite andb_false_r. f_equal. exact IH.
  - symmetry. apply Nat.eqb_neq. lia.
Qed.

Lemma removeEventListener_wellFormed (type : string) (w : Window) :
  wellFormed w ->
  listeners (removeEventListener type w) = listeners w /\
  requests (removeEventListener type w) = requests w /\
  wellFormed (removeEventListener type w).
Proof.
  unfold wellFormed. intro Hw. cbn [removeEventListener listeners allocated requests].
  rewrite removeListener_fresh by exact Hw.
  repeat split. eapply Forall_impl; [|exact Hw]. simpl. intros. lia.
Qed.

Lemma addEventListener_wellFormed (type : string) (w : Window) :
  wellFormed w -> wellFormed (addEventListener type w).
Proof.
  unfold wellFormed. intro Hw. cbn [addEventListener listeners allocated].
  apply Forall_app. split.
  - eapply Forall_impl; [|exact Hw]. simpl. intros. lia.
  - constructor; [simpl; lia|constructor].
Qed.

(** A run of frames is [renderCanvas] applied as many times. *)
Lemma run_frames (rnd : nat -> R) (n : nat) (st : CanvasLayer) (k : nat) :
  fst (run rnd (frames n) (st, k)) = Nat.iter n (fun st => fst (renderCanvas st)) st.
Proof.
  unfold run, frames. revert st.
  induction n as [|n IH]; intro st; [reflexivity|].
  cbn [repeat fold_left handle fst snd].
  rewrite IH. symmetry. apply Nat.iter_succ_r.
Qed.

Lemma render_window (m : Manager) (w : Window) :
  listeners (snd (render (m, w))) = listeners w /\
  requests (snd (render (m, w))) = requests w ++ [S (lastRequest w)] /\
  lastRequest (snd (render (m, w))) = S (lastRequest w) /\
  animationId (fst (render (m, w))) = Some (S (lastRequest w)) /\
  layer (fst (render (m, w))) = fst (renderCanvas (layer m)) /\
  (wellFormed w -> wellFormed (snd (render (m, w)))).
Proof.
  cbn. repeat split. unfold wellFormed. cbn.
  intro Hw. eapply Forall_impl; [|exact Hw]. simpl. intros. lia.
Qed.

Lemma refresh_looping (s : Manager * Window) :
  looping s ->
  looping (refresh s) /\
  layer (fst (refresh s)) = fst (renderCanvas (layer (fst s))) /\
  listeners (snd (refresh s)) = listeners (snd s).
Proof.
  destruct s as [m w]. unfold looping. cbn [fst snd]. intros (Hr & Ha & Hn).
  unfold refresh. rewrite Hr. cbn. auto.
Qed.

Lemma destroy_requests (s : Manager * Window) :
  looping s -> requests (snd (destroy s)) = [].
Proof.
  destruct s as [m w]. unfold looping. cbn [fst snd]. intros (Hr & Ha & Hn).
  unfold destroy. rewrite Ha.
  apply Nat.eqb_neq in Hn. rewrite Hn.
  cbn [snd removeEventListener requests cancelAnimationFrame].
  rewrite Hr. simpl. rewrite Nat.eqb_refl. reflexivity.
Qed.

Lemma refresh_idle (s : Manager * Window) :
  requests (snd s) = [] ->
  layer (fst (refresh s)) = layer (fst s) /\ requests (snd (refresh s)) = [].
Proof. destruct s as [m w]. cbn [fst snd]. intro Hr. unfold refresh. rewrite Hr. auto. Qed.

Lemma iter_refresh_idle (n : nat) (s : Manager * Window) :
  requests (snd s) = [] ->
  layer (fst (Nat.iter n refresh s)) = layer (fst s) /\
  requests (snd (Nat.iter n refresh s)) = [].
Proof.
  intro Hr. induction n as [|n [IHl IHr]]; [auto|].
  change (Nat.iter (S n) refresh s) with (refresh (Nat.iter n refresh s)).
  destruct (refresh_idle (Nat.iter n refresh s) IHr) as [Hl Hr'].
  rewrite Hl. auto.
Qed.

Lemma iter_refresh_looping (n : nat) (s : Manager * Window) :
  looping s ->
  looping (Nat.iter n refresh s) /\
  layer (fst (Nat.iter n refresh s)) =
    Nat.iter n (fun st => fst (renderCanvas st)) (layer (fst s)) /\
  listeners (snd (Nat.iter n refresh s)) = listeners (snd s).
Proof.
  intro Hs. induction n as [|n (IHl & IHg & IHs)].
  - simpl. repeat split; apply Hs.
  - change (Nat.iter (S n) refresh s) with (refresh (Nat.iter n refresh s)).
    destruct (refresh_looping _ IHl) as (Hl & Hlayer & Hls).
    split; [exact Hl|]. split.
    + rewrite Hlayer, IHg. reflexivity.
    + rewrite Hls. exact IHs.
Qed.

End LifecycleFacts.

(** X20. [destroy] removes no listener: each [removeEventListener] is given
    a function object made on the spot, which is none of the registered
    ones.  In a window whose registered functions exist, the listeners after
    [destroy] are the listeners before; after [initializeLayers] and
    [destroy] on a fresh window the five listeners of the manager (resize,
    mousemove, mouseout, scroll, load) are all still there.  What [destroy]
    does do: it takes the canvas out of the document. *)
Theorem destroy_keeps_the_listeners :
  forall (m : Lifecycle.Manager) (w : Lifecycle.Window),
    Lifecycle.wellFormed w ->
    Lifecycle.listeners (snd (Lifecycle.destroy (m, w))) = Lifecycle.listeners w /\
    Lifecycle.canvasInDocument (fst (Lifecycle.destroy (m, w))) = false /\
    (forall (rnd : nat -> R) (iw ih : N) (k : nat),
        Lifecycle.listeners
          (snd (Lifecycle.destroy
                  (Lifecycle.initializeLayers rnd iw ih k
                     (Lifecycle.constructed, Lifecycle.mkWindow [] 0 [] 0)))) =
          [("resize"%string, 0%nat); ("mousemove"%string, 1%nat);
           ("mouseout"%string, 2%nat); ("scroll"%string, 3%nat);
           ("load"%string, 4%nat)]).
Proof.
  intros m w Hw.
  assert (Hgen : forall m0 w0, Lifecycle.wellFormed w0 ->
             Lifecycle.listeners (snd (Lifecycle.destroy (m0, w0))) =
             Lifecycle.listeners w0).
  { intros m0 w0 Hw0. unfold Lifecycle.destroy. cbn [snd].
    set (w1 := match Lifecycle.animationId m0 with
               | Some id => if Nat.eqb id 0 then w0
                            else Lifecycle.cancelAnimationFrame id w0
               | None => w0
               end).
    assert (Hw1 : Lifecycle.wellFormed w1 /\
                  Lifecycle.listeners w1 = Lifecycle.listeners w0).
    { unfold w1. destruct (Lifecycle.animationId m0) as [id|]; [|auto].
      destruct (Nat.eqb id 0); auto. }
    destruct Hw1 as [Hw1 Hl1].
    destruct (LifecycleFacts.removeEventListener_wellFormed "resize" w1 Hw1)
      as (Hl2 & _ & Hw2).
    destruct (LifecycleFacts.removeEventListener_wellFormed "mousemove" _ Hw2)
      as (Hl3 & _ & Hw3).
    destruct (LifecycleFacts.removeEventListener_wellFormed "mouseout" _ Hw3)
      as (Hl4 & _ & Hw4).
    destruct (LifecycleFacts.removeEventListener_wellFormed "scroll" _ Hw4)
      as (Hl5 & _ & _).
    rewrite Hl5, Hl4, Hl3, Hl2. exact Hl1. }
  split; [apply Hgen; exact Hw|]. split; [reflexivity|].
  intros rnd iw ih k. unfold Lifecycle.initializeLayers.
  match goal with
  | |- context [Lifecycle.render (?m0, ?w0)] =>
      destruct (LifecycleFacts.render_window m0 w0) as (Hl & _ & _ & _ & _ & Hwf);
      destruct (Lifecycle.render (m0, w0)) as [m1 w1] eqn:Hr
  end.
  cbn [snd] in Hl, Hwf. rewrite Hgen.
  - rewrite Hl. reflexivity.
  - apply Hwf. unfold Lifecycle.registerListeners.
    repeat apply LifecycleFacts.addEventListener_wellFormed. constructor.
Qed.

Lemma destroy_keeps_the_listeners_witness :
  Lifecycle.listeners
    (snd (Lifecycle.destroy
            (Lifecycle.constructed,
             Lifecycle.mkWindow [("resize"%string, 0%nat)] 1 [] 0))) =
  [("resize"%string, 0%nat)].
Proof.
  destruct (destroy_keeps_the_listeners Lifecycle.constructed
              (Lifecycle.mkWindow [("resize"%string, 0%nat)] 1 [] 0)) as [H _].
  - constructor; [simpl; lia|constructor].
  - exact H.
Defined.

(** X21. The frame loop holds one request at a time: after
    [initializeLayers] on a window with no pending request and any number
    n of display refreshes, exactly one request is pending, [animationId]
    holds it, and each refresh has painted one frame: the canvas layer is
    the one that n + 1 frames in a row leave of the layer that
    [initCanvasLayer] set up.  [destroy] cancels that request: no refresh
    after it paints anything. *)
Theorem render_loop_one_request :
  forall (rnd : nat -> R) (iw ih : N) (k n : nat)
         (ls : list (string * nat)) (a : nat),
    Lifecycle.requests
      (snd (Nat.iter n Lifecycle.refresh
              (Lifecycle.initializeLayers rnd iw ih k
                 (Lifecycle.constructed, Lifecycle.mkWindow ls a [] 0)))) =
      [S n] /\
    Lifecycle.animationId
      (fst (Nat.iter n Lifecycle.refresh
              (Lifecycle.initializeLayers rnd iw ih k
                 (Lifecycle.constructed, Lifecycle.mkWindow ls a [] 0)))) =
      Some (S n) /\
    Lifecycle.layer
      (fst (Nat.iter n Lifecycle.refresh
              (Lifecycle.initializeLayers rnd iw ih k
                 (Lifecycle.constructed, Lifecycle.mkWindow ls a [] 0)))) =
      fst (run rnd (frames (S n)) (initCanvasLayer rnd iw ih k constructor)) /\
    (forall j : nat,
        Lifecycle.layer
          (fst (Nat.iter j Lifecycle.refresh
                  (Lifecycle.destroy
                     (Nat.iter n Lifecycle.refresh
                        (Lifecycle.initializeLayers rnd iw ih k
                           (Lifecycle.constructed, Lifecycle.mkWindow ls a [] 0)))))) =
        Lifecycle.layer
          (fst (Nat.iter n Lifecycle.refresh
                  (Lifecycle.initializeLayers rnd iw ih k
                     (Lifecycle.constructed, Lifecycle.mkWindow ls a [] 0))))).
Proof.
  intros rnd iw ih k n ls a.
  set (s0 := Lifecycle.initializeLayers rnd iw ih k
               (Lifecycle.constructed, Lifecycle.mkWindow ls a [] 0)).
  assert (Hinit : Lifecycle.looping s0 /\
                  Lifecycle.lastRequest (snd s0) = 1%nat /\
                  Lifecycle.layer (fst s0) =
                    fst (renderCanvas (fst (initCanvasLayer rnd iw ih k constructor)))).
  { unfold s0, Lifecycle.initializeLayers.
    match goal with
    | |- context [Lifecycle.render (?m0, ?w0)] =>
        destruct (LifecycleFacts.render_window m0 w0) as (_ & Hr & Hlast & Ha & Hlay & _)
    end.
    cbn [Lifecycle.requests Lifecycle.lastRequest Lifecycle.registerListeners
         Lifecycle.addEventListener Lifecycle.layer] in Hr, Hlast, Ha, Hlay.
    unfold Lifecycle.looping. rewrite Hr, Hlast, Ha, Hlay.
    repeat split; discriminate. }
  destruct Hinit as (Hloop & Hlast & Hg).
  assert (Hcount : forall j, Lifecycle.lastRequest
                               (snd (Nat.iter j Lifecycle.refresh s0)) = S j).
  { induction j as [|j IHj]; [exact Hlast|].
    change (Nat.iter (S j) Lifecycle.refresh s0)
      with (Lifecycle.refresh (Nat.iter j Lifecycle.refresh s0)).
    destruct (LifecycleFacts.iter_refresh_looping j s0 Hloop) as ((Hr & _ & _) & _).
    destruct (Nat.iter j Lifecycle.refresh s0) as [m w].
    cbn [fst snd] in *. unfold Lifecycle.refresh. rewrite Hr. cbn. rewrite IHj.
    reflexivity. }
  destruct (LifecycleFacts.iter_refresh_looping n s0 Hloop)
    as ((Hr & Ha & Hn) & Hgn & _).
  rewrite Hcount in Hr, Ha.
  split; [exact Hr|]. split; [exact Ha|]. split.
  - rewrite Hgn, Hg.
    destruct (initCanvasLayer rnd iw ih k constructor) as [st0 k0].
    rewrite LifecycleFacts.run_frames. cbn [fst].
    symmetry. apply Nat.iter_succ_r.
  - intro j.
    destruct (LifecycleFacts.iter_refresh_looping n s0 Hloop) as (Hl & _).
    destruct (LifecycleFacts.iter_refresh_idle j _
                (LifecycleFacts.destroy_requests _ Hl)) as [Hlayer _].
    rewrite Hlayer.
    destruct (Nat.iter n Lifecycle.refresh s0) as [m w]. reflexivity.
Qed.

(** * The observers and the samples of createParticles *)

Module ObserverFacts.

Import Observers.
Local Open Scope list_scope.

Lemma update_length {A : Type} (i : nat) (f : A -> A) (l : list A) :
  List.length (Dom.update i f l) = List.length l.
Proof.
  revert i. induction l as [|a l IH]; intros [|i]; simpl; auto.
Qed.

Lemma update_nth {A : Type} (i j : nat) (f : A -> A) (l : list A) (d : A) :
  nth j (Dom.update i f l) d =
  if Nat.eqb i j && Nat.ltb j (List.length l) then f (nth j l d) else nth j l d.
Proof.
  revert i j. induction l as [|a l IH]; intros i j.
  - simpl. rewrite andb_false_r. destruct i; reflexivity.
  - destruct i as [|i], j as [|j]; simpl; try reflexivity.
    rewrite IH. reflexivity.
Qed.

Lemma contains_add (tok other : string) (l : list string) :
  Dom.contains other (add tok l) = Dom.contains other l || String.eqb other tok.
Proof.
  unfold add. destruct (Dom.contains tok l) eqn:Hc.
  - destruct (String.eqb other tok) eqn:He.
    + apply String.eqb_eq in He. subst. rewrite Hc. reflexivity.
    + rewrite orb_false_r. reflexivity.
  - unfold Dom.contains. rewrite existsb_app. simpl. rewrite orb_false_r. reflexivity.
Qed.

Lemma add_add (tok : string) (l : list string) : add tok (add tok l) = add tok l.
Proof.
  assert (H : Dom.contains tok (add tok l) = true)
    by (rewrite contains_add, String.eqb_refl; apply orb_true_r).
  revert H. generalize (add tok l). intros l' H. unfold add. rewrite H. reflexivity.
Qed.

(** One step of either callback, for a step function [f] on an element. *)
Lemma fold_update_nth {A : Type} (f : A -> A) (d : A) (entries : list Entry) :
  (forall a, f (f a) = f a) ->
  forall (l : list A) (i : nat),
    (i < List.length l)%nat ->
    List.length
      (fold_left (fun l e => if isIntersecting e then Dom.update (target e) f l else l)
                 entries l) = List.length l /\
    nth i (fold_left (fun l e => if isIntersecting e then Dom.update (target e) f l else l)
                     entries l) d =
      if reported i entries then f (nth i l d) else nth i l d.
Proof.
  intro Hf. induction entries as [|e es IH]; intros l i Hi; simpl; [auto|].
  destruct (isIntersecting e) eqn:He; simpl.
  - destruct (IH (Dom.update (target e) f l) i) as [Hlen Hnth];
      [rewrite update_length; exact Hi|].
    rewrite Hlen, update_length. split; [reflexivity|].
    rewrite Hnth, update_nth.
    apply Nat.ltb_lt in Hi. rewrite Hi, andb_true_r.
    destruct (Nat.eqb (target e) i); simpl.
    + destruct (reported i es); [apply Hf|reflexivity].
    + reflexivity.
  - apply IH. exact Hi.
Qed.

End ObserverFacts.

(** X22. The fade-in observer only ever adds the class [fade-in]: after a
    batch of entries an observed element has [fade-in] if it had it or if
    some entry reports it as intersecting; every other class is on it
    exactly if it was; an entry that reports an element as not intersecting
    takes nothing from it; and the elements stay as many. *)
Theorem fadeIn_only_adds :
  forall (entries : list Observers.Entry) (els : list (list string)) (i : nat),
    (i < List.length els)%nat ->
    List.length (Observers.fadeIn entries els) = List.length els /\
    Dom.contains "fade-in" (nth i (Observers.fadeIn entries els) []) =
      Dom.contains "fade-in" (nth i els []) || Observers.reported i entries /\
    (forall other : string,
        other <> "fade-in"%string ->
        Dom.contains other (nth i (Observers.fadeIn entries els) []) =
          Dom.contains other (nth i els [])) /\
    (Observers.reported i entries = false ->
     nth i (Observers.fadeIn entries els) [] = nth i els []).
Proof.
  intros entries els i Hi. unfold Observers.fadeIn.
  destruct (ObserverFacts.fold_update_nth (Observers.add "fade-in") [] entries
              (ObserverFacts.add_add "fade-in") els i Hi) as [Hlen Hnth].
  split; [exact Hlen|]. rewrite Hnth.
  split; [|split].
  - destruct (Observers.reported i entries).
    + rewrite ObserverFacts.contains_add, String.eqb_refl, !orb_true_r. reflexivity.
    + rewrite orb_false_r. reflexivity.
  - intros other Hne. destruct (Observers.reported i entries); [|reflexivity].
    rewrite ObserverFacts.contains_add.
    replace (String.eqb other "fade-in") with false; [apply orb_false_r|].
    symmetry. apply String.eqb_neq. exact Hne.
  - intros ->. reflexivity.
Qed.

Lemma fadeIn_only_adds_witness :
  Dom.contains "fade-in"
    (nth 0 (Observers.fadeIn [Observers.mkEntry 0 true; Observers.mkEntry 0 false]
                             [["work-card"%string]]) []) = true.
Proof.
  destruct (fadeIn_only_adds [Observers.mkEntry 0 true; Observers.mkEntry 0 false]
              [["work-card"%string]] 0) as (_ & H & _).
  - simpl. lia.
  - exact H.
Defined.

(** X23. The lazy-image observer loads an image from its own [data-src]:
    after a batch of entries an image that some entry reports as
    intersecting has [src] equal to its [data-src], carries the class
    [loaded] and is no longer observed, however many entries reported it;
    an image that no entry reports as intersecting is as it was; no
    [data-src] is ever changed. *)
Theorem lazyLoad_loads_from_data_src :
  forall (entries : list Observers.Entry) (imgs : list Observers.Img) (i : nat)
         (d : Observers.Img),
    (i < List.length imgs)%nat ->
    Observers.dataSrc (nth i (Observers.lazyLoad entries imgs) d) =
      Observers.dataSrc (nth i imgs d) /\
    (Observers.reported i entries = true ->
     nth i (Observers.lazyLoad entries imgs) d = Observers.load (nth i imgs d) /\
     Observers.src (nth i (Observers.lazyLoad entries imgs) d) =
       Some (Observers.dataSrc (nth i imgs d)) /\
     Dom.contains "loaded" (Observers.classes (nth i (Observers.lazyLoad entries imgs) d)) =
       true /\
     Observers.observed (nth i (Observers.lazyLoad entries imgs) d) = false) /\
    (Observers.reported i entries = false ->
     nth i (Observers.lazyLoad entries imgs) d = nth i imgs d).
Proof.
  intros entries imgs i d Hi. unfold Observers.lazyLoad.
  assert (Hload : forall a, Observers.load (Observers.load a) = Observers.load a).
  { intro a. unfold Observers.load. cbn. rewrite ObserverFacts.add_add. reflexivity. }
  destruct (ObserverFacts.fold_update_nth Observers.load d entries Hload imgs i Hi)
    as [_ Hnth].
  rewrite Hnth. split; [destruct (Observers.reported i entries); reflexivity|].
  split; intros ->; [|reflexivity].
  repeat split. unfold Observers.load. cbn [Observers.classes].
  rewrite ObserverFacts.contains_add, String.eqb_refl. apply orb_true_r.
Qed.

Lemma lazyLoad_loads_from_data_src_witness :
  Observers.dataSrc
    (nth 0 (Observers.lazyLoad [Observers.mkEntry 0 true]
              [Observers.mkImg None "a.png" [] true])
         (Observers.mkImg None "" [] false)) = "a.png"%string.
Proof.
  destruct (lazyLoad_loads_from_data_src [Observers.mkEntry 0 true]
              [Observers.mkImg None "a.png" [] true] 0
              (Observers.mkImg None "" [] false)) as (H & _).
  - simpl. lia.
  - exact H.
Defined.

(** X24. [createParticles] reads the next 6 n samples of [Math.random] for
    n particles and no other: the call counter advances by 6 n, and two
    streams of samples that agree on those 6 n calls give the same
    particles. *)
Theorem createParticles_reads_six_samples_each :
  forall (rnd rnd' : nat -> R) (k : nat) (st : CanvasLayer),
    snd (createParticles rnd k st) =
      (k + 6 * List.length (particles (fst (createParticles rnd k st))))%nat /\
    ((forall i : nat,
         (k <= i < k + 6 * List.length (particles (fst (createParticles rnd k st))))%nat ->
         rnd' i = rnd i) ->
     createParticles rnd' k st = createParticles rnd k st).
Proof.
  intros rnd rnd' k st.
  rewrite createParticles_length. split; [apply createParticles_counter|].
  intro Hagree.
  assert (Hps : particles (fst (createParticles rnd' k st)) =
                particles (fst (createParticles rnd k st))).
  { rewrite !createParticles_particles. apply map_ext_in.
    intros i Hi. apply in_seq in Hi. unfold newParticle.
    rewrite !Hagree by lia. reflexivity. }
  unfold createParticles in *.
  rewrite !pushParticles_eq in *. cbn [fst snd particles set_particles] in *.
  rewrite Hps. reflexivity.
Qed.

(** * The wrap on binary64 *)

Module Binary64WrapFacts.

Import PrimFloat SpecFloat FloatOps FloatAxioms Binary64Wrap.

Lemma SFcompare_antisym (a b : spec_float) :
  SFcompare b a = option_map CompOpp (SFcompare a b).
Proof.
  destruct a as [sa|sa| |sa ma ea], b as [sb|sb| |sb mb eb]; cbn;
    try reflexivity;
    try (destruct sa; reflexivity);
    try (destruct sb; reflexivity);
    try (destruct sa, sb; reflexivity).
  destruct sa, sb; try reflexivity;
    rewrite (Z.compare_antisym ea eb);
    destruct (Z.compare ea eb); cbn; try reflexivity;
    change (Pos.compare_cont Eq mb ma) with (Pos.compare mb ma);
    change (Pos.compare_cont Eq ma mb) with (Pos.compare ma mb);
    rewrite (Pos.compare_antisym ma mb);
    destruct (Pos.compare ma mb); reflexivity.
Qed.

Lemma SFcompare_refl (a : spec_float) :
  isNaNSF a = false -> SFcompare a a = Some Eq.
Proof.
  destruct a as [s|s| |s m e]; cbn; try discriminate; intros _.
  - reflexivity.
  - destruct s; reflexivity.
  - destruct s; rewrite Z.compare_refl, Pos.compare_cont_refl; reflexivity.
Qed.

Lemma SFcompare_some (a b : spec_float) :
  isNaNSF a = false -> isNaNSF b = false -> exists c, SFcompare a b = Some c.
Proof.
  destruct a as [sa|sa| |sa ma ea], b as [sb|sb| |sb mb eb]; cbn;
    try discriminate; intros _ _; eexists; reflexivity.
Qed.

(** On numbers, [a < b] false means [b <= a]. *)
Lemma SFltb_false_leb (a b : spec_float) :
  isNaNSF a = false -> isNaNSF b = false -> SFltb a b = false -> SFleb b a = true.
Proof.
  intros Ha Hb. unfold SFltb, SFleb. rewrite (SFcompare_antisym a b).
  destruct (SFcompare_some a b Ha Hb) as [c ->]. destruct c; cbn; congruence.
Qed.

Lemma SFleb_refl (a : spec_float) : isNaNSF a = false -> SFleb a a = true.
Proof. intro Ha. unfold SFleb. rewrite (SFcompare_refl a Ha). reflexivity. Qed.

Lemma SFleb_not_nan (a b : spec_float) : SFleb a b = true -> isNaNSF b = false.
Proof.
  destruct a as [sa|sa| |sa ma ea], b as [sb|sb| |sb mb eb]; cbn;
    try discriminate; reflexivity.
Qed.

Lemma SFltb_nan_l (b : spec_float) : SFltb S754_nan b = false.
Proof. reflexivity. Qed.

Lemma SFltb_nan_r (a : spec_float) : SFltb a S754_nan = false.
Proof. destruct a; reflexivity. Qed.

Lemma is_nan_SF (v : float) : is_nan v = isNaNSF (Prim2SF v).
Proof.
  unfold is_nan. rewrite FloatAxioms.eqb_spec. unfold SFeqb.
  destruct (Prim2SF v) as [s|s| |s m e] eqn:Hv.
  - reflexivity.
  - destruct s; reflexivity.
  - reflexivity.
  - rewrite SFcompare_refl by reflexivity. reflexivity.
Qed.

Lemma zero_SF : Prim2SF 0%float = S754_zero false.
Proof. reflexivity. Qed.

Local Open Scope float_scope.

(** X25. The wrap on binary64. For a canvas bound that is a number not
    below 0: a coordinate that is NaN passes both tests of the wrap and
    stays NaN, so the wrap never repairs a position; every other
    coordinate, the two infinities included, leaves the wrap between 0 and
    the bound, both included. *)
Theorem wrap_on_binary64 :
  forall bound v : PrimFloat.float,
    PrimFloat.leb 0%float bound = true ->
    (PrimFloat.is_nan v = true -> wrap bound v = v) /\
    (PrimFloat.is_nan v = false ->
     PrimFloat.leb 0%float (wrap bound v) = true /\
     PrimFloat.leb (wrap bound v) bound = true).
Proof.
  intros bound v Hb.
  pose proof zero_SF as Hz.
  assert (HbN : isNaNSF (FloatOps.Prim2SF bound) = false).
  { rewrite FloatAxioms.leb_spec in Hb.
    exact (SFleb_not_nan _ _ Hb). }
  unfold wrap. split.
  - intro Hv. rewrite is_nan_SF in Hv.
    rewrite !FloatAxioms.ltb_spec.
    destruct (FloatOps.Prim2SF v) eqn:HV; try discriminate.
    rewrite SFltb_nan_r. cbv iota. rewrite HV, SFltb_nan_l. reflexivity.
  - intro Hv. rewrite is_nan_SF in Hv.
    destruct (PrimFloat.ltb bound v) eqn:H1.
    + replace (PrimFloat.ltb 0 0) with false by reflexivity.
      split; [reflexivity | exact Hb].
    + destruct (PrimFloat.ltb v 0) eqn:H2.
      * split; [exact Hb|].
        rewrite FloatAxioms.leb_spec.
        apply SFleb_refl. exact HbN.
      * rewrite FloatAxioms.ltb_spec in H1, H2. rewrite !FloatAxioms.leb_spec.
        rewrite Hz in *. split.
        -- apply SFltb_false_leb; [exact Hv|reflexivity|exact H2].
        -- apply SFltb_false_leb; [exact HbN|exact Hv|exact H1].
Qed.

Lemma wrap_on_binary64_witness :
  PrimFloat.leb 0%float (wrap 800%float (-1)%float) = true /\
  PrimFloat.leb (wrap 800%float (-1)%float) 800%float = true.
Proof.
  destruct (wrap_on_binary64 800%float (-1)%float) as [_ H].
  - reflexivity.
  - apply H. reflexivity.
Defined.

End Binary64WrapFacts.

(** * Where rounding decides *)

Module Binary64Rounding.

Import PrimFloat.
Local Open Scope float_scope.

(** C7, the claim as stated fails on the doubles: [Math.random] returns
    0x1.fffffffffffffp-1 = 1 - 2^-53, a sample of [0,1); the product by 60
    rounds to 60 and the hue of the particle is 260, not below it. *)
Lemma newParticle_hue_reaches_260 :
  (0 <=? 0x1.fffffffffffffp-1) = true /\
  (0x1.fffffffffffffp-1 <? 1) = true /\
  Binary64Particles.hue
    (Binary64Particles.newParticle (fun _ => 0x1.fffffffffffffp-1) 800 600 0) = 260 /\
  (Binary64Particles.hue
     (Binary64Particles.newParticle (fun _ => 0x1.fffffffffffffp-1) 800 600 0) <? 260) =
    false.
Proof. repeat split. Qed.



End Binary64Rounding.
